(** * Query service of the medicines API (index.js)

    A shallow embedding of the three route handlers of [index.js]
    ([/api/search], [/api/medicines/:id], [/api/medicines/:id/alternatives])
    and of [connectToDb], followed by the properties of the handlers.

    What the handlers take from outside the file (the JavaScript built-ins
    [trim], [parseInt], [Math.max], [Math.min], [RegExp], [String]; the
    document store behind the [mongodb] driver) is modelled in the first
    sections; the handlers themselves are transcribed statement by
    statement in the section "Route handlers". *)

From Stdlib Require Import String Ascii List ZArith Bool Arith Lia.
Import ListNotations.
Local Open Scope string_scope.
Local Open Scope Z_scope.

(* ===================================================================== *)
(** ** JavaScript values used by the handlers *)
(* ===================================================================== *)

Module JS.

(** A string of the language is a sequence of UTF-16 code units. It is
    held here as the bytes of its UTF-8 encoding; a byte that belongs to
    no well-formed sequence stands for the character of the same number.
    So the no-break space U+00A0 is the bytes C2 A0, and also the lone
    byte A0. *)
Definition bytes (s : string) : list ascii := list_ascii_of_string s.
Definition str (l : list ascii) : string := string_of_list_ascii l.

Definition code (c : ascii) : Z := Z.of_nat (nat_of_ascii c).

Definition continuation (c : ascii) : bool :=
  (128 <=? code c) && (code c <=? 191).

(** The code point held by a well-formed sequence of two, three or four
    bytes (no overlong form, no surrogate, nothing above U+10FFFF). *)
Definition point2 (a b : ascii) : option Z :=
  if (194 <=? code a) && (code a <=? 223) && continuation b
  then Some ((code a - 192) * 64 + (code b - 128))
  else None.

Definition point3 (a b c : ascii) : option Z :=
  let p := (code a - 224) * 4096 + (code b - 128) * 64 + (code c - 128) in
  if (224 <=? code a) && (code a <=? 239) && continuation b && continuation c
     && (2048 <=? p) && negb ((55296 <=? p) && (p <=? 57343))
  then Some p
  else None.

Definition point4 (a b c d : ascii) : option Z :=
  let p := (code a - 240) * 262144 + (code b - 128) * 4096
           + (code c - 128) * 64 + (code d - 128) in
  if (240 <=? code a) && (code a <=? 244)
     && continuation b && continuation c && continuation d
     && (65536 <=? p) && (p <=? 1114111)
  then Some p
  else None.

(** The characters of a byte sequence, each with the bytes that hold
    it. *)
Fixpoint characters (l : list ascii) : list (Z * list ascii) :=
  match l with
  | [] => []
  | a :: r =>
      let lone := (code a, [a]) :: characters r in
      if code a <? 128 then lone
      else
        match r with
        | b :: r1 =>
            match point2 a b with
            | Some p => (p, [a; b]) :: characters r1
            | None =>
                match r1 with
                | c :: r2 =>
                    match point3 a b c with
                    | Some p => (p, [a; b; c]) :: characters r2
                    | None =>
                        match r2 with
                        | d :: r3 =>
                            match point4 a b c d with
                            | Some p => (p, [a; b; c; d]) :: characters r3
                            | None => lone
                            end
                        | [] => lone
                        end
                    end
                | [] => lone
                end
            end
        | [] => lone
        end
  end.

(** The code units of a code point: itself, or a surrogate pair. *)
Definition units (p : Z) : list Z :=
  if p <? 65536 then [p]
  else [55296 + (p - 65536) / 1024; 56320 + (p - 65536) mod 1024].

Definition units_of (chs : list (Z * list ascii)) : list Z :=
  flat_map (fun ch => units (fst ch)) chs.

(** The code units of a string. *)
Definition chars (s : string) : list Z := units_of (characters (bytes s)).

(** White space and line terminators, as [String.prototype.trim] strips
    them and [parseInt] skips them: TAB, LF, VT, FF, CR, SP, U+00A0,
    U+1680, U+2000 to U+200A, U+2028, U+2029, U+202F, U+205F, U+3000 and
    U+FEFF. *)
Definition is_space (u : Z) : bool :=
  ((9 <=? u) && (u <=? 13)) || (u =? 32) || (u =? 160) || (u =? 5760)
  || ((8192 <=? u) && (u <=? 8202)) || (u =? 8232) || (u =? 8233)
  || (u =? 8239) || (u =? 8287) || (u =? 12288) || (u =? 65279).

Fixpoint trimStart (l : list (Z * list ascii)) : list (Z * list ascii) :=
  match l with
  | ch :: r => if is_space (fst ch) then trimStart r else l
  | [] => []
  end.

Definition trimEnd (l : list (Z * list ascii)) : list (Z * list ascii) :=
  rev (trimStart (rev l)).

(** [s.trim()] *)
Definition trim (s : string) : string :=
  str (concat (map snd (trimEnd (trimStart (characters (bytes s)))))).

(** A query parameter is absent ([undefined]) or a string. [a || d] on
    such a value: [undefined] and the empty string are falsy. *)
Definition or_default (a : option string) (d : string) : string :=
  match a with
  | Some EmptyString => d
  | Some s => s
  | None => d
  end.

(** [!s] on a string. *)
Definition is_empty (s : string) : bool :=
  match s with EmptyString => true | _ => false end.

(** Numbers: [NaN], a finite number that is an integer, or an infinity.
    The finite numbers the handlers compute are integers; [Num z] stands
    for the double whose value is [z]. *)
Inductive number : Type :=
| NaN
| Num (z : Z)
| Infinity (negative : bool).

(** The double nearest to an integer, ties to the even significand;
    integers below 2^53 in size are doubles themselves, and what rounds
    to 2^1024 or more is an infinity. *)
Definition to_number (z : Z) : number :=
  let a := Z.abs z in
  if a <? 2 ^ 53 then Num z
  else
    let e := Z.log2 a - 52 in
    let q := a / 2 ^ e in
    let r := a mod 2 ^ e in
    let half := 2 ^ (e - 1) in
    let q' :=
      if r <? half then q
      else if half <? r then q + 1
      else if Z.even q then q else q + 1 in
    let m := q' * 2 ^ e in
    if 2 ^ 1024 <=? m then Infinity (z <? 0) else Num (Z.sgn z * m).

(** Value of a code unit as a digit, letters counting from 10. *)
Definition digit_value (u : Z) : option Z :=
  if (48 <=? u) && (u <=? 57) then Some (u - 48)
  else if (97 <=? u) && (u <=? 122) then Some (u - 87)
  else if (65 <=? u) && (u <=? 90) then Some (u - 55)
  else None.

Definition radix_digit (R : Z) (u : Z) : option Z :=
  match digit_value u with
  | Some d => if d <? R then Some d else None
  | None => None
  end.

(** The longest prefix of radix-[R] digits, read as an integer; [acc] is
    [None] as long as no digit was read. *)
Fixpoint read_digits (R : Z) (l : list Z) (acc : option Z) : option Z :=
  match l with
  | u :: r =>
      match radix_digit R u with
      | Some d =>
          read_digits R r
            (Some (match acc with Some a => a * R + d | None => d end))
      | None => acc
      end
  | [] => acc
  end.

(** A leading [-] (45) or [+] (43). *)
Definition strip_sign (l : list Z) : Z * list Z :=
  match l with
  | u :: r =>
      if u =? 45 then (-1, r)
      else if u =? 43 then (1, r)
      else (1, l)
  | [] => (1, l)
  end.

(** A leading [0x] or [0X] (48, then 120 or 88). *)
Definition strip_hex_prefix (l : list Z) : Z * list Z :=
  match l with
  | u :: x :: r =>
      if (u =? 48) && ((x =? 120) || (x =? 88)) then (16, r)
      else (10, l)
  | _ => (10, l)
  end.

(** [parseInt(s)] with no radix argument: leading white space is
    skipped, then an optional sign, then an optional [0x] prefix, then
    the longest run of digits, whose value is rounded to a double; no
    digit at all gives [NaN]. *)
Definition parseInt (s : string) : number :=
  let '(sign, l1) := strip_sign (units_of (trimStart (characters (bytes s)))) in
  let '(R, l2) := strip_hex_prefix l1 in
  match read_digits R l2 None with
  | Some m => to_number (sign * m)
  | None => NaN
  end.

(** [Math.max(a, b)] and [Math.min(a, b)]: [NaN] if either is [NaN]. *)
Definition Math_max (a b : number) : number :=
  match a, b with
  | NaN, _ => NaN
  | _, NaN => NaN
  | Num x, Num y => Num (Z.max x y)
  | Infinity false, _ => Infinity false
  | _, Infinity false => Infinity false
  | Infinity true, _ => b
  | _, Infinity true => a
  end.

Definition Math_min (a b : number) : number :=
  match a, b with
  | NaN, _ => NaN
  | _, NaN => NaN
  | Num x, Num y => Num (Z.min x y)
  | Infinity true, _ => Infinity true
  | _, Infinity true => Infinity true
  | Infinity false, _ => b
  | _, Infinity false => a
  end.

(** [a * b]: the exact product rounded to a double; an infinity times
    zero is [NaN]. *)
Definition mul (a b : number) : number :=
  match a, b with
  | NaN, _ => NaN
  | _, NaN => NaN
  | Num x, Num y => to_number (x * y)
  | Infinity s, Num y =>
      if y =? 0 then NaN else Infinity (xorb s (y <? 0))
  | Num x, Infinity s =>
      if x =? 0 then NaN else Infinity (xorb s (x <? 0))
  | Infinity s, Infinity t => Infinity (xorb s t)
  end.

(** An [Error] object, and [String(err)] ([Error.prototype.toString]). *)
Record error : Type := Error { name : string; message : string }.

Definition String (e : error) : string :=
  if is_empty (name e) then message e
  else if is_empty (message e) then name e
  else name e ++ ": " ++ message e.

(** Values stored in a document field. [undefined] is a missing field. *)
Inductive value : Type :=
| VNull
| VBool (b : bool)
| VNum (n : number)
| VStr (s : string).

(** [!!v] *)
Definition truthy (v : value) : bool :=
  match v with
  | VNull => false
  | VBool b => b
  | VNum NaN => false
  | VNum (Num z) => negb (z =? 0)
  | VNum (Infinity _) => true
  | VStr s => negb (is_empty s)
  end.

Definition value_eqb (a b : value) : bool :=
  match a, b with
  | VNull, VNull => true
  | VBool x, VBool y => Bool.eqb x y
  | VNum NaN, VNum NaN => true
  | VNum (Num x), VNum (Num y) => x =? y
  | VNum (Infinity s), VNum (Infinity t) => Bool.eqb s t
  | VStr x, VStr y => String.eqb x y
  | _, _ => false
  end.

(** How an operation completes: normally with a value, or by throwing. *)
Inductive Completion (A : Type) : Type :=
| Normal (a : A)
| Throw (e : error).
Arguments Normal {A} a.
Arguments Throw {A} e.

End JS.

(* ===================================================================== *)
(** ** Regular expressions: [new RegExp("^" + q, "i")] and [$regex] *)
(* ===================================================================== *)

(** The handler builds the pattern from the raw query text, so the text is
    read as pattern syntax. The model covers the patterns written with
    ordinary ASCII characters, [.], [|], [^] and the quantifiers [*], [+],
    [?] (greedy or lazy); a pattern using any other syntax character
    ([$ \ ( ) [ ] { }]) or a character beyond ASCII is outside this
    fragment and is left to the environment (see [Env] below). A pattern
    of the fragment has the meaning the language of the constructor
    gives it under option [i], on every subject: the subject is read
    code unit by code unit. The store is sent the same source and
    option, and is taken to match as the expression does. *)

Module Regex.

Inductive Atom : Type :=
| AChar (c : ascii)
| ADot.

Inductive Quantifier : Type :=
| QOne    (* no quantifier *)
| QStar   (* [*] *)
| QPlus   (* [+] *)
| QOpt.   (* [?] *)

Inductive Term : Type :=
| TBegin                              (* [^] *)
| TAtom (a : Atom) (k : Quantifier).

Definition Alternative : Type := list Term.
Definition Disjunction : Type := list Alternative.

Inductive parsed : Type :=
| Fragment (d : Disjunction)
| SyntaxError (msg : string)
| Outside.

Definition quantifier_of (c : ascii) : option Quantifier :=
  if Ascii.eqb c "*" then Some QStar
  else if Ascii.eqb c "+" then Some QPlus
  else if Ascii.eqb c "?" then Some QOpt
  else None.

(** What the fragment leaves out: the syntax characters of the other
    constructs, and every byte of a character beyond ASCII. *)
Definition outside_fragment (c : ascii) : bool :=
  existsb (Ascii.eqb c)
    ["$"; "\"; "("; ")"; "["; "]"; "{"; "}"]%char
  || (128 <=? JS.code c).


(** Put a term in front of the first alternative. *)
Definition push (t : Term) (p : parsed) : parsed :=
  match p with
  | Fragment (a :: d) => Fragment ((t :: a) :: d)
  | Fragment [] => Fragment [[t]]
  | SyntaxError m => SyntaxError m
  | Outside => Outside
  end.

(** Start a new (so far empty) first alternative. *)
Definition new_alternative (p : parsed) : parsed :=
  match p with
  | Fragment d => Fragment ([] :: d)
  | SyntaxError m => SyntaxError m
  | Outside => Outside
  end.

(** Left-to-right reading of the pattern. A quantifier with no atom
    before it ([^*], [a**], [|+]) is the syntax error
    "Nothing to repeat". *)
Fixpoint parse (l : list ascii) : parsed :=
  match l with
  | [] => Fragment [[]]
  | c :: r =>
      if Ascii.eqb c "|" then new_alternative (parse r)
      else if Ascii.eqb c "^" then push TBegin (parse r)
      else if outside_fragment c then Outside
      else
        match quantifier_of c with
        | Some _ => SyntaxError "Nothing to repeat"
        | None =>
            let a := if Ascii.eqb c "." then ADot else AChar c in
            match r with
            | k :: r1 =>
                match quantifier_of k with
                | Some q =>
                    match r1 with
                    | "?"%char :: r2 => push (TAtom a q) (parse r2)
                    | _ => push (TAtom a q) (parse r1)
                    end
                | None => push (TAtom a QOne) (parse r)
                end
            | [] => push (TAtom a QOne) (parse r)
            end
        end
  end.

(** Option [i] for the fragment. A pattern character of the fragment is
    ASCII, and an ASCII character matches a code unit of the subject
    when the two have the same upper case: the letters a-z go to A-Z,
    and no code unit beyond ASCII has an ASCII upper case for this
    comparison, so those stay as they are. *)
Definition fold (u : Z) : Z :=
  if (97 <=? u) && (u <=? 122) then u - 32 else u.

Definition ci_eqb (a b : Z) : bool := fold a =? fold b.

(** The line terminators: LF, CR, U+2028, U+2029. *)
Definition line_terminator (u : Z) : bool :=
  (u =? 10) || (u =? 13) || (u =? 8232) || (u =? 8233).

(** One code unit against an atom; [.] is any code unit but a line
    terminator. *)
Definition atom_matches (a : Atom) (x : Z) : bool :=
  match a with
  | AChar c => ci_eqb (JS.code c) x
  | ADot => negb (line_terminator x)
  end.

(** A position in the subject: whether it is the start of the subject,
    and what is left to read. *)
Definition position : Type := (bool * list Z)%type.

(** Positions reachable by reading zero or more characters that match
    the atom. *)
Fixpoint repeat_atom (a : Atom) (start : bool) (rest : list Z)
  : list position :=
  (start, rest) ::
  match rest with
  | x :: r => if atom_matches a x then repeat_atom a false r else []
  | [] => []
  end.

Definition one_atom (a : Atom) (p : position) : list position :=
  match snd p with
  | x :: r => if atom_matches a x then [(false, r)] else []
  | [] => []
  end.

(** Positions reachable from [p] through one term. *)
Definition match_term (t : Term) (p : position) : list position :=
  match t with
  | TBegin => if fst p then [p] else []
  | TAtom a QOne => one_atom a p
  | TAtom a QStar => repeat_atom a (fst p) (snd p)
  | TAtom a QPlus =>
      flat_map (fun p1 => repeat_atom a (fst p1) (snd p1)) (one_atom a p)
  | TAtom a QOpt => p :: one_atom a p
  end.

Fixpoint match_alternative (ts : Alternative) (ps : list position)
  : list position :=
  match ts with
  | [] => ps
  | t :: ts' => match_alternative ts' (flat_map (match_term t) ps)
  end.

Definition nonempty {A : Type} (l : list A) : bool :=
  match l with [] => false | _ => true end.

(** Does some alternative match at position [p]? *)
Definition match_at (d : Disjunction) (p : position) : bool :=
  existsb (fun ts => nonempty (match_alternative ts [p])) d.

(** Does the pattern match somewhere in the subject? *)
Fixpoint search_from (d : Disjunction) (start : bool) (l : list Z)
  : bool :=
  match_at d (start, l) ||
  match l with
  | _ :: r => search_from d false r
  | [] => false
  end.

Definition test (d : Disjunction) (subject : string) : bool :=
  search_from d true (JS.chars subject).

(** A compiled expression: one of the fragment, or one the environment
    compiled, known by the subjects it matches. *)
Inductive RegExp : Type :=
| Pattern (d : Disjunction)
| HostPattern (accepts : string -> bool).

Definition matches (re : RegExp) (subject : string) : bool :=
  match re with
  | Pattern d => test d subject
  | HostPattern accepts => accepts subject
  end.

(** [b] begins with [a], code unit by code unit, the letters a-z and A-Z
    compared without case. For a text [a] of ASCII characters this is
    "begins with [a], compared case-insensitively". *)
Fixpoint ci_prefix (a b : list Z) : bool :=
  match a, b with
  | [], _ => true
  | x :: a', y :: b' => ci_eqb x y && ci_prefix a' b'
  | _ :: _, [] => false
  end.

Definition begins_with (q subject : string) : bool :=
  ci_prefix (JS.chars q) (JS.chars subject).

End Regex.

(* ===================================================================== *)
(** ** The document store, as the handlers use it *)
(* ===================================================================== *)

Module Store.

(** A store-native identifier, known by its 24-digit hexadecimal form. *)
Record ObjectId : Type := { toHexString : string }.

(** The [_id] of a record: a native identifier or a plain string. The two
    kinds never compare equal. *)
Inductive IdValue : Type :=
| NativeId (o : ObjectId)
| RawId (s : string).

Definition id_eqb (a b : IdValue) : bool :=
  match a, b with
  | NativeId x, NativeId y => String.eqb (toHexString x) (toHexString y)
  | RawId x, RawId y => String.eqb x y
  | _, _ => false
  end.

(** A record: its [_id] and its other fields, in stored order. *)
Record Doc : Type := { _id : IdValue; fields : list (string * JS.value) }.

(** [d.f]: [None] is [undefined]. *)
Fixpoint lookup (f : string) (l : list (string * JS.value)) : option JS.value :=
  match l with
  | (k, v) :: r => if String.eqb k f then Some v else lookup f r
  | [] => None
  end.

Definition get (d : Doc) (f : string) : option JS.value := lookup f (fields d).

(** A projection [{f1: 1, ..., fn: 1}] keeps [_id] and the listed fields;
    [None] is a query without projection. *)
Definition Projection : Type := option (list string).

Definition project (p : Projection) (d : Doc) : Doc :=
  match p with
  | None => d
  | Some keep =>
      {| _id := _id d;
         fields := filter (fun kv => existsb (String.eqb (fst kv)) keep) (fields d) |}
  end.

(** The three query shapes of the handlers. *)
Inductive Filter : Type :=
| ById (k : IdValue)
    (* { _id: k } *)
| BrandNameRegex (re : Regex.RegExp)
    (* { brand_name: { $regex: re } } *)
| SameKeyExcept (k : JS.value) (i : IdValue).
    (* { composition_key: k, _id: { $ne: i } } *)

Definition satisfies (f : Filter) (d : Doc) : bool :=
  match f with
  | ById k => id_eqb (_id d) k
  | BrandNameRegex re =>
      match get d "brand_name" with
      | Some (JS.VStr s) => Regex.matches re s
      | _ => false
      end
  | SameKeyExcept k i =>
      match get d "composition_key" with
      | Some v => JS.value_eqb v k && negb (id_eqb (_id d) i)
      | None => false
      end
  end.

Inductive Command : Type :=
| FindOne (f : Filter) (p : Projection)
| Find (f : Filter) (p : Projection) (skip limit : JS.number).

(** A collection: its records in the store's native order, and the
    commands the store fails to carry out (network or server errors).
    The number of records is a count the language can hold exactly:
    fewer than 2^53. *)
Record Collection : Type := {
  records : list Doc;
  fault : Command -> option JS.error;
  countable : Z.of_nat (length records) < 2 ^ 53
}.

(** [collection.findOne(f, {projection: p})]: the first record in native
    order that satisfies the filter, or [null]. *)
Definition findOne (c : Collection) (f : Filter) (p : Projection)
  : JS.Completion (option Doc) :=
  match fault c (FindOne f p) with
  | Some e => JS.Throw e
  | None => JS.Normal (option_map (project p) (find (satisfies f) (records c)))
  end.

(** [cursor.limit(n)]: at most [|n|] records, and [0] is no limit. *)
Definition apply_limit {A : Type} (n : Z) (l : list A) : list A :=
  if n =? 0 then l else firstn (Z.abs_nat n) l.

(** [cursor.skip(s)] for a count [s] of at least 0: a skip that reaches
    the length leaves nothing. *)
Definition apply_skip {A : Type} (s : Z) (l : list A) : list A :=
  if Z.of_nat (length l) <=? s then [] else skipn (Z.to_nat s) l.

(** [collection.find(f, {projection: p}).skip(s).limit(n).toArray()]: the
    records that satisfy the filter, in native order, without the first
    [s], cut to the limit. The store rejects a [NaN] or negative skip and
    a limit that is no finite number; a skip of positive infinity, when
    the store carries the command out, is beyond every count and leaves
    nothing (a store that refuses it has a [fault] on the command). *)
Definition find_toArray (c : Collection) (f : Filter) (p : Projection)
  (skip limit : JS.number) : JS.Completion (list Doc) :=
  match fault c (Find f p skip limit) with
  | Some e => JS.Throw e
  | None =>
      match skip, limit with
      | JS.Num s, JS.Num n =>
          if s <? 0 then
            JS.Throw (JS.Error "MongoServerError" "skip value must be non-negative")
          else
            JS.Normal (apply_limit n
                      (apply_skip s
                         (map (project p) (filter (satisfies f) (records c)))))
      | JS.Infinity false, JS.Num n => JS.Normal []
      | _, _ =>
          JS.Throw (JS.Error "MongoServerError" "Expected an integer, but found NaN")
      end
  end.

End Store.

(* ===================================================================== *)
(** ** Environment, state and effects of a request *)
(* ===================================================================== *)

(** What a request meets outside the process: whether [client.connect()]
    succeeds, the collection, the identifier parser of the driver, and the
    expression engine on patterns outside the modelled fragment. *)
Record Env : Type := {
  connect : option JS.error;
    (* [None]: [client.connect()] resolves; [Some e]: it rejects with [e] *)
  collection : Store.Collection;
  ObjectId_isValid : string -> bool;
  new_ObjectId : string -> Store.ObjectId;
  host_RegExp : string -> JS.error + (string -> bool)
}.

(** What a handler does to the store, in order. *)
Inductive Event : Type :=
| Connect
| Issued (c : Store.Command).

(** The outcome of running a piece of handler code: how it completed,
    whether [db] and [col] are set afterwards, and the events issued. *)
Record Run (A : Type) : Type := {
  completion : JS.Completion A;
  cached : bool;
  trace : list Event
}.
Arguments completion {A} r.
Arguments cached {A} r.
Arguments trace {A} r.

(** Handler code: from whether [db] and [col] are set to an outcome. *)
Definition Proc (A : Type) : Type := bool -> Run A.

Definition ret {A : Type} (a : A) : Proc A :=
  fun c => {| completion := JS.Normal a; cached := c; trace := [] |}.

Definition throw {A : Type} (e : JS.error) : Proc A :=
  fun c => {| completion := JS.Throw e; cached := c; trace := [] |}.

Definition bind {A B : Type} (m : Proc A) (k : A -> Proc B) : Proc B :=
  fun c =>
    let r := m c in
    match completion r with
    | JS.Normal a =>
        let r' := k a (cached r) in
        {| completion := completion r'; cached := cached r';
           trace := trace r ++ trace r' |}
    | JS.Throw e =>
        {| completion := JS.Throw e; cached := cached r; trace := trace r |}
    end.

(** [try { m } catch (err) { h err }] *)
Definition try_catch {A : Type} (m : Proc A) (h : JS.error -> Proc A) : Proc A :=
  fun c =>
    let r := m c in
    match completion r with
    | JS.Normal a => r
    | JS.Throw e =>
        let r' := h e (cached r) in
        {| completion := completion r'; cached := cached r';
           trace := trace r ++ trace r' |}
    end.

(** A computation that touches neither the cache nor the store. *)
Definition complete {A : Type} (c : JS.Completion A) : Proc A :=
  fun w => {| completion := c; cached := w; trace := [] |}.

(** A store operation: the event is issued, then the operation completes. *)
Definition issue {A : Type} (ev : Event) (c : JS.Completion A) : Proc A :=
  fun w => {| completion := c; cached := w; trace := [ev] |}.

Definition get_cached : Proc bool :=
  fun c => {| completion := JS.Normal c; cached := c; trace := [] |}.

Definition set_cached : Proc unit :=
  fun _ => {| completion := JS.Normal tt; cached := true; trace := [] |}.

Declare Scope proc_scope.
Delimit Scope proc_scope with proc.
Notation "x <- m ;; k" := (bind m (fun x => k))
  (at level 61, m at next level, right associativity) : proc_scope.
Notation "m ;; k" := (bind m (fun _ => k))
  (at level 61, right associativity) : proc_scope.
Notation "'try' m 'catch' h" := (try_catch m h)
  (at level 62, m at level 61) : proc_scope.
Local Open Scope proc_scope.

(** [await client.connect()] *)
Definition client_connect (env : Env) : Proc unit :=
  issue Connect
    (match connect env with
     | None => JS.Normal tt
     | Some e => JS.Throw e
     end).

Definition collection_findOne (c : Store.Collection) (f : Store.Filter)
  (p : Store.Projection) : Proc (option Store.Doc) :=
  issue (Issued (Store.FindOne f p)) (Store.findOne c f p).

Definition collection_find (c : Store.Collection) (f : Store.Filter)
  (p : Store.Projection) (skip limit : JS.number) : Proc (list Store.Doc) :=
  issue (Issued (Store.Find f p skip limit)) (Store.find_toArray c f p skip limit).

(** [new RegExp(source, "i")] *)
Definition RegExp_constructor (env : Env) (source : string)
  : JS.Completion Regex.RegExp :=
  match Regex.parse (JS.bytes source) with
  | Regex.Fragment d => JS.Normal (Regex.Pattern d)
  | Regex.SyntaxError msg =>
      JS.Throw
        (JS.Error "SyntaxError"
           ("Invalid regular expression: /" ++ source ++ "/i: " ++ msg))
  | Regex.Outside =>
      match host_RegExp env source with
      | inl e => JS.Throw e
      | inr accepts => JS.Normal (Regex.HostPattern accepts)
      end
  end.

Definition new_RegExp (env : Env) (source : string) : Proc Regex.RegExp :=
  complete (RegExp_constructor env source).

(* ===================================================================== *)
(** ** Route handlers *)
(* ===================================================================== *)

(** [connectToDb]: the cached collection when [db] and [col] are set;
    otherwise one connection attempt, whose failure is rethrown as
    [Error("Failed to connect to database")] and leaves [db] and [col]
    unset. *)
Definition connectToDb (env : Env) : Proc Store.Collection :=
  warm <- get_cached ;;
  if warm then ret (collection env)
  else
    try
      (client_connect env ;;
       set_cached ;;
       ret (collection env))
    catch (fun _ => throw (JS.Error "Error" "Failed to connect to database")).

(** [req.query] *)
Record Query : Type := {
  q : option string;
  page : option string;
  size : option string
}.

(** The JSON body of a response. *)
Inductive Body : Type :=
| Page (total : nat) (documents : list Store.Doc)
    (* { total, documents } *)
| Document (document : Store.Doc)
    (* { document } *)
| Failure (error : string).
    (* { error } *)

Record Response : Type := { status : Z; body : Body }.

(** [res.json(b)] and [res.status(n).json(b)] *)
Definition res_json (b : Body) : Proc Response :=
  ret {| status := 200; body := b |}.

Definition res_status_json (n : Z) (b : Body) : Proc Response :=
  ret {| status := n; body := b |}.

(** The projection shared by search and alternatives. *)
Definition listing_projection : Store.Projection :=
  Some ["brand_name"; "composition"; "composition_key"; "manufacturer";
        "dosage_form"; "price"].

(** [Math.max(0, parseInt(req.query.page || "0"))] *)
Definition page_of (query : Query) : JS.number :=
  JS.Math_max (JS.Num 0) (JS.parseInt (JS.or_default (page query) "0")).

(** [Math.min(cap, Math.max(1, parseInt(req.query.size || dflt)))] *)
Definition size_of (cap : Z) (dflt : string) (query : Query) : JS.number :=
  JS.Math_min (JS.Num cap)
    (JS.Math_max (JS.Num 1) (JS.parseInt (JS.or_default (size query) dflt))).

(** [ObjectId.isValid(id) ? new ObjectId(id) : id] *)
Definition id_key (env : Env) (id : string) : Store.IdValue :=
  if ObjectId_isValid env id then Store.NativeId (new_ObjectId env id)
  else Store.RawId id.

(** GET /api/search *)
Definition get_api_search (env : Env) (query : Query) : Proc Response :=
  try
    (collection <- connectToDb env ;;
     let q := JS.trim (JS.or_default (q query) "") in
     let page := page_of query in
     let size := size_of 200 "20" query in
     if JS.is_empty q then res_json (Page 0 [])
     else
       let skip := JS.mul page size in
       let limit := size in
       regex <- new_RegExp env ("^" ++ q) ;;
       docs <- collection_find collection (Store.BrandNameRegex regex)
                 listing_projection skip limit ;;
       res_json (Page (length docs) docs))
  catch (fun err => res_status_json 500 (Failure (JS.String err))).

(** GET /api/medicines/:id *)
Definition get_api_medicines_id (env : Env) (id : string) : Proc Response :=
  try
    (collection <- connectToDb env ;;
     doc <- collection_findOne collection (Store.ById (id_key env id)) None ;;
     match doc with
     | None => res_status_json 404 (Failure "Not found")
     | Some d => res_json (Document d)
     end)
  catch (fun err => res_status_json 500 (Failure (JS.String err))).

(** GET /api/medicines/:id/alternatives *)
Definition get_api_medicines_id_alternatives (env : Env) (id : string)
  (query : Query) : Proc Response :=
  try
    (collection <- connectToDb env ;;
     let page := page_of query in
     let size := size_of 500 "100" query in
     base <- collection_findOne collection (Store.ById (id_key env id))
               (Some ["composition_key"]) ;;
     match base with
     | None => res_json (Page 0 [])                   (* !base *)
     | Some b =>
         match Store.get b "composition_key" with
         | None => res_json (Page 0 [])               (* undefined *)
         | Some key =>
             if negb (JS.truthy key) then res_json (Page 0 [])
             else
               docs <- collection_find collection
                         (Store.SameKeyExcept key (Store._id b))
                         listing_projection (JS.mul page size) size ;;
               res_json (Page (length docs) docs)
         end
     end)
  catch (fun err => res_status_json 500 (Failure (JS.String err))).

(* ===================================================================== *)
(** ** A sample deployment *)
(* ===================================================================== *)

Module Sample.

Definition is_hex (c : ascii) : bool :=
  match JS.digit_value (JS.code c) with
  | Some d => d <? 16
  | None => false
  end.

(** The documented form of a native identifier: 24 hexadecimal digits. *)
Definition isValid (s : string) : bool :=
  Nat.eqb (String.length s) 24 && forallb is_hex (JS.bytes s).

Definition lower (c : ascii) : ascii :=
  let n := JS.code c in
  if (65 <=? n) && (n <=? 90) then ascii_of_nat (Z.to_nat (n + 32)) else c.

Definition objectId (s : string) : Store.ObjectId :=
  {| Store.toHexString := JS.str (map lower (JS.bytes s)) |}.

Definition medicine (id : Store.IdValue) (brand composition key maker form : string)
  (price : Z) : Store.Doc :=
  {| Store._id := id;
     Store.fields :=
       [("brand_name", JS.VStr brand);
        ("composition", JS.VStr composition);
        ("composition_key", JS.VStr key);
        ("manufacturer", JS.VStr maker);
        ("dosage_form", JS.VStr form);
        ("price", JS.VNum (JS.Num price));
        ("stock", JS.VNum (JS.Num 7))] |}.

Definition idB : string := "64b000000000000000000001".
Definition idC1 : string := "64b000000000000000000002".
Definition idC2 : string := "64b000000000000000000003".

Definition B : Store.Doc :=
  medicine (Store.NativeId (objectId idB))
    "Paracetamol" "Paracetamol 500mg" "paracetamol-500" "Acme" "tablet" 20.
Definition C1 : Store.Doc :=
  medicine (Store.NativeId (objectId idC1))
    "Calpol" "Paracetamol 500mg" "paracetamol-500" "Glaxo" "tablet" 15.
Definition C2 : Store.Doc :=
  medicine (Store.NativeId (objectId idC2))
    "Paracip" "Paracetamol 500mg" "paracetamol-500" "Cipla" "tablet" 12.
(** A record with a string identifier and an empty composition key. *)
Definition E : Store.Doc :=
  medicine (Store.RawId "sku-17") "Zab" "Unknown" "" "Nobody" "syrup" 9.

(** A record with no composition key, named like [B]. *)
Definition F : Store.Doc :=
  {| Store._id := Store.RawId "sku-18";
     Store.fields :=
       [("brand_name", JS.VStr "Paracetamol"); ("price", JS.VNum (JS.Num 11))] |}.

Definition no_fault : Store.Command -> option JS.error := fun _ => None.

Definition shelf : Store.Collection :=
  {| Store.records := [B; C1; C2; E; F]; Store.fault := no_fault;
     Store.countable := eq_refl |}.

(** The store is reachable and answers every command. *)
Definition up : Env :=
  {| connect := None;
     collection := shelf;
     ObjectId_isValid := isValid;
     new_ObjectId := objectId;
     host_RegExp := fun _ => inr (fun _ => false) |}.

(** The store is unreachable. *)
Definition down : Env :=
  {| connect := Some (JS.Error "MongoNetworkError" "connect ECONNREFUSED");
     collection := shelf;
     ObjectId_isValid := isValid;
     new_ObjectId := objectId;
     host_RegExp := fun _ => inr (fun _ => false) |}.

(** The store is reachable but fails every command. *)
Definition timed_out : JS.error :=
  JS.Error "MongoNetworkError" "connection timed out".

Definition flaky : Env :=
  {| connect := None;
     collection :=
       {| Store.records := [B; C1; C2; E; F];
          Store.fault := fun _ => Some timed_out;
          Store.countable := eq_refl |};
     ObjectId_isValid := isValid;
     new_ObjectId := objectId;
     host_RegExp := fun _ => inr (fun _ => false) |}.

Definition query (q page size : option string) : Query :=
  {| q := q; page := page; size := size |}.

(** A text of white space only: SP, U+00A0 (bytes C2 A0), TAB, U+FEFF
    (EF BB BF), U+2028 (E2 80 A8), U+3000 (E3 80 80) and LF. *)
Definition blank : string :=
  JS.str
    (map ascii_of_nat
       [32; 194; 160; 9; 239; 187; 191; 226; 128; 168; 227; 128; 128; 10]%nat).

(** The text [para] with U+00A0 before it and U+FEFF after it. *)
Definition padded : string :=
  JS.str (map ascii_of_nat [194; 160]%nat) ++ "para"
  ++ JS.str (map ascii_of_nat [239; 187; 191]%nat).

End Sample.

(* ===================================================================== *)
(** ** Vocabulary of the properties *)
(* ===================================================================== *)

(** The three handlers, run on a request. *)
Inductive Endpoint : Type :=
| ApiSearch (query : Query)
| ApiMedicine (id : string)
| ApiAlternatives (id : string) (query : Query).

Definition handle (env : Env) (e : Endpoint) : Proc Response :=
  match e with
  | ApiSearch query => get_api_search env query
  | ApiMedicine id => get_api_medicines_id env id
  | ApiAlternatives id query => get_api_medicines_id_alternatives env id query
  end.

(** A collection handle can be had: it is cached, or the connection
    attempt succeeds. *)
Definition reachable (env : Env) (warm : bool) : Prop :=
  warm = true \/ connect env = None.

(** The events of [connectToDb] when it succeeds. *)
Definition connecting (warm : bool) : list Event :=
  if warm then [] else [Connect].

(** A query text that is empty or only white space. *)
Definition whitespace_only (s : string) : bool :=
  forallb JS.is_space (JS.chars s).

(** The response of a run, when no error escaped the handler. *)
Definition response_of (r : Run Response) : option Response :=
  match completion r with
  | JS.Normal resp => Some resp
  | JS.Throw _ => None
  end.

(** The documents of a [{ total, documents }] response. *)
Definition documents_of (r : Run Response) : list Store.Doc :=
  match completion r with
  | JS.Normal {| body := Page _ docs |} => docs
  | _ => []
  end.

Definition brand_of (d : Store.Doc) : option JS.value := Store.get d "brand_name".

(** [l] is [m] with some elements left out, order kept. *)
Inductive Subseq {A : Type} : list A -> list A -> Prop :=
| Subseq_nil : Subseq [] []
| Subseq_skip : forall x l m, Subseq l m -> Subseq l (x :: m)
| Subseq_keep : forall x l m, Subseq l m -> Subseq (x :: l) (x :: m).



(** The record [findOne] returns for the path parameter [id], before
    projection. *)
Definition base_of (env : Env) (id : string) : option Store.Doc :=
  find (Store.satisfies (Store.ById (id_key env id)))
    (Store.records (collection env)).

(** The base lookup of the alternatives handler. *)
Definition base_lookup (env : Env) (id : string) : Store.Command :=
  Store.FindOne (Store.ById (id_key env id)) (Some ["composition_key"]).

(** A record as search and alternatives return it. *)
Definition listed (d : Store.Doc) : Store.Doc :=
  Store.project listing_projection d.




(** Decimal notation of a natural number, as a client writes [page]. *)
Definition digit (d : Z) : ascii := ascii_of_nat (Z.to_nat (48 + d)).

Fixpoint decimal_digits (fuel : nat) (n : Z) : list ascii :=
  match fuel with
  | O => []
  | S fuel' =>
      if n <? 10 then [digit n]
      else (decimal_digits fuel' (n / 10) ++ [digit (n mod 10)])%list
  end.

Definition decimal_char (c : ascii) : Prop :=
  exists d, 0 <= d < 10 /\ c = digit d.

Definition decimal (n : nat) : string :=
  JS.str (decimal_digits (S n) (Z.of_nat n)).

(** A client reading [count] pages of one document each, from page
    [first] on, one request after the other, and concatenating them. *)
Fixpoint read_pages (env : Env) (text : string) (warm : bool)
  (first count : nat) : list Store.Doc :=
  match count with
  | O => []
  | S count' =>
      let r := get_api_search env
                 {| q := Some text; page := Some (decimal first); size := Some "1" |}
                 warm in
      (documents_of r ++ read_pages env text (cached r) (S first) count')%list
  end.

(* ===================================================================== *)
(** ** Start of the process, and a process serving requests *)
(* ===================================================================== *)

(** [process.env] once [dotenv.config()] has run: a variable is unset or
    holds a string. *)
Definition ProcessEnv : Type := string -> option string.

(** [!v] on such a variable. *)
Definition unset (v : option string) : bool :=
  match v with
  | None => true
  | Some s => JS.is_empty s
  end.

Record Settings : Type := {
  MONGODB_URI : option string;
  DB_NAME : string;
  COLLECTION : string
}.

(** How the module body ends: [process.exit(code)], or the application
    set up with its settings. *)
Inductive Startup : Type :=
| Exit (code : Z)
| Ready (settings : Settings).

(** The module body up to the creation of the application: the three
    constants, then the test on [MONGODB_URI]. *)
Definition startup (env : ProcessEnv) : Startup :=
  let MONGODB_URI := env "MONGODB_URI" in
  let DB_NAME := JS.or_default (env "DB_NAME") "meddb" in
  let COLLECTION := JS.or_default (env "COLLECTION") "medicines" in
  if unset MONGODB_URI then Exit 1
  else Ready {| MONGODB_URI := MONGODB_URI; DB_NAME := DB_NAME;
                COLLECTION := COLLECTION |}.

(** A process environment with the URI set and an empty [DB_NAME]. *)
Definition sample_process_env : ProcessEnv :=
  fun v =>
    if String.eqb v "MONGODB_URI" then Some "mongodb://localhost:27017"
    else if String.eqb v "DB_NAME" then Some ""
    else None.

(** Requests of one process, which may overlap. [db] and [col] are
    module variables. A handler runs without interruption up to its
    first [await]: on arrival it calls [connectToDb], which tests
    [db && col], and when they are unset starts a connection attempt and
    is suspended at [await client.connect()]; [db] and [col] are set
    when it resumes after a successful attempt. Requests that arrive in
    between still find them unset. A schedule lists the arrivals and, by
    arrival number, these resumptions, in the order they happen. *)
Inductive Moment : Type :=
| Arrival (e : Endpoint)
| Resumption (k : nat).

(** The requests arrived so far, each with the cache it found. *)
Fixpoint observed (env : Env) (schedule : list Moment) (warm : bool)
  (seen : list (Endpoint * bool)) : list (Endpoint * bool) :=
  match schedule with
  | [] => seen
  | Arrival e :: later => observed env later warm (seen ++ [(e, warm)])
  | Resumption k :: later =>
      match nth_error seen k with
      | Some (e, w) => observed env later (warm || cached (handle env e w)) seen
      | None => observed env later warm seen
      end
  end.

Definition arrivals (env : Env) (schedule : list Moment) (warm : bool)
  : list (Endpoint * bool) :=
  observed env schedule warm [].

(** The schedule of requests that do not overlap: each has resumed
    before the next arrives ([k] is the number of arrivals before). *)
Fixpoint one_by_one (k : nat) (requests : list Endpoint) : list Moment :=
  match requests with
  | [] => []
  | e :: rest => Arrival e :: Resumption k :: one_by_one (S k) rest
  end.

(** The runs of requests that do not overlap, each from the cache it
    found on arrival. *)
Definition serve (env : Env) (requests : list Endpoint) (warm : bool)
  : list (Run Response) :=
  map (fun x => handle env (fst x) (snd x))
    (arrivals env (one_by_one 0 requests) warm).

(** Everything a served sequence did to the store, in order. *)
Definition events (runs : list (Run Response)) : list Event :=
  concat (map trace runs).

(** Whether a run attempts a connection, and the number of attempts of
    the requests of a process. *)
Definition connects (r : Run Response) : bool :=
  existsb (fun ev => match ev with Connect => true | Issued _ => false end)
    (trace r).

Definition connections (env : Env) (seen : list (Endpoint * bool)) : nat :=
  length (filter (fun x => connects (handle env (fst x) (snd x))) seen).

(** The request for the first page with the same text and size. *)
Definition first_page (query : Query) : Query :=
  {| q := q query; page := None; size := size query |}.

(** The request with the query text trimmed. *)
Definition trimmed (query : Query) : Query :=
  {| q := option_map JS.trim (q query); page := page query; size := size query |}.

(** The size cap of an endpoint. *)
Definition size_cap (e : Endpoint) : Z :=
  match e with
  | ApiSearch _ => 200
  | _ => 500
  end.

(** The effective size of a request, for the endpoints that page. *)
Definition size_for (e : Endpoint) : JS.number :=
  match e with
  | ApiSearch query => size_of 200 "20" query
  | ApiMedicine _ => JS.NaN
  | ApiAlternatives _ query => size_of 500 "100" query
  end.

(* ===================================================================== *)
(** ** Running handler code *)
(* ===================================================================== *)

(** Unfolds the effect combinators, leaving the store and the built-ins
    folded. *)
Ltac run_proc :=
  cbv beta iota zeta delta
    [handle get_api_search get_api_medicines_id get_api_medicines_id_alternatives
     connectToDb client_connect collection_find collection_findOne new_RegExp
     res_json res_status_json try_catch bind ret throw complete issue
     get_cached set_cached completion cached trace connecting app].

(** Case analysis on the innermost test the goal is stuck on. *)
Ltac run_case :=
  match goal with
  | |- context [match ?x with _ => _ end] =>
      lazymatch x with
      | context [match _ with _ => _ end] => fail
      | _ => destruct x eqn:?
      end
  end.

Ltac run_cases := repeat (run_case; run_proc).

(** Proves that a code unit known by its bounds is no white space. *)
Ltac not_space :=
  unfold JS.is_space; repeat apply orb_false_intro;
  first
    [ apply Z.eqb_neq; lia
    | apply andb_false_iff;
      first [left; apply Z.leb_gt; lia | right; apply Z.leb_gt; lia] ].

Lemma connectToDb_warm (env : Env) :
  connectToDb env true =
  {| completion := JS.Normal (collection env); cached := true; trace := [] |}.
Proof. reflexivity. Qed.

Lemma connectToDb_cold_ok (env : Env) :
  connect env = None ->
  connectToDb env false =
  {| completion := JS.Normal (collection env); cached := true;
     trace := [Connect] |}.
Proof. intros H. run_proc. rewrite H. reflexivity. Qed.

Lemma connectToDb_cold_fails (env : Env) (err : JS.error) :
  connect env = Some err ->
  connectToDb env false =
  {| completion := JS.Throw (JS.Error "Error" "Failed to connect to database");
     cached := false; trace := [Connect] |}.
Proof. intros H. run_proc. rewrite H. reflexivity. Qed.

(** When a handle can be had, [connectToDb] returns the collection, leaves
    the cache set and issues at most the connection attempt. *)
Lemma connectToDb_reachable (env : Env) (warm : bool) :
  reachable env warm ->
  connectToDb env warm =
  {| completion := JS.Normal (collection env); cached := true;
     trace := connecting warm |}.
Proof.
  intros [-> | H].
  - reflexivity.
  - destruct warm; [reflexivity | now apply connectToDb_cold_ok].
Qed.

(** A handler whose connection attempt fails answers 500 with the
    description of the rethrown error, after that single attempt. *)
Lemma connection_failure (env : Env) (e : Endpoint) (err : JS.error) :
  connect env = Some err ->
  handle env e false =
  {| completion :=
       JS.Normal
         {| status := 500;
            body := Failure (JS.String (JS.Error "Error" "Failed to connect to database")) |};
     cached := false;
     trace := [Connect] |}.
Proof.
  intros H. destruct e; run_proc; rewrite H; reflexivity.
Qed.

(** No error escapes a handler. *)
Lemma handler_completes (env : Env) (e : Endpoint) (warm : bool) :
  exists resp, completion (handle env e warm) = JS.Normal resp.
Proof.
  destruct e; run_proc; run_cases; eauto.
Qed.

Lemma findOne_fault (c : Store.Collection) f p (err : JS.error) :
  Store.fault c (Store.FindOne f p) = Some err ->
  Store.findOne c f p = JS.Throw err.
Proof. intros H. unfold Store.findOne. now rewrite H. Qed.

Lemma find_toArray_fault (c : Store.Collection) f p s n (err : JS.error) :
  Store.fault c (Store.Find f p s n) = Some err ->
  Store.find_toArray c f p s n = JS.Throw err.
Proof. intros H. unfold Store.find_toArray. now rewrite H. Qed.

(** A handler whose store command fails answers 500 with the description
    of the store's error; the failed command is the last thing it issued,
    and it was issued once. *)
Lemma store_failure (env : Env) (e : Endpoint) (warm : bool)
  (cmd : Store.Command) (err : JS.error) :
  Store.fault (collection env) cmd = Some err ->
  In (Issued cmd) (trace (handle env e warm)) ->
  completion (handle env e warm) =
    JS.Normal {| status := 500; body := Failure (JS.String err) |} /\
  exists before,
    trace (handle env e warm) = (before ++ [Issued cmd])%list /\
    ~ In (Issued cmd) before.
Proof.
  intros Hf.
  destruct e; run_proc; run_cases; cbn [In]; intros Hin;
    repeat match type of Hin with _ \/ _ => destruct Hin as [Hin | Hin] end;
    try discriminate Hin; try contradiction;
    injection Hin as <-;
    repeat match goal with
      | H : Store.findOne _ _ _ = _ |- _ =>
          rewrite (findOne_fault _ _ _ _ Hf) in H
      | H : Store.find_toArray _ _ _ _ _ = _ |- _ =>
          rewrite (find_toArray_fault _ _ _ _ _ _ Hf) in H
      end;
    try discriminate;
    repeat match goal with
      | H : JS.Throw _ = JS.Throw _ |- _ => injection H as <-
      end;
    (split; [reflexivity |]);
    first
      [ exists []; split; [reflexivity | cbn; tauto]
      | exists [Connect]; split; [reflexivity | cbn; intuition discriminate]
      | eexists [_]; split; [reflexivity | cbn; intuition discriminate]
      | eexists [_; _]; split; [reflexivity | cbn; intuition discriminate] ].
Qed.

(* ===================================================================== *)
(** ** Error handling at the handler boundary *)
(* ===================================================================== *)

(** A handler attempts the connection at most once, before anything
    else. *)
Lemma one_connection_attempt (env : Env) (e : Endpoint) (warm : bool) :
  exists rest,
    (trace (handle env e warm) = rest \/
     trace (handle env e warm) = Connect :: rest) /\
    ~ In Connect rest.
Proof.
  destruct e; run_proc; run_cases;
    match goal with
    | |- exists rest, (Connect :: ?l = rest \/ _) /\ _ =>
        exists l; split; [now right | cbn; intuition discriminate]
    | |- exists rest, (?l = rest \/ _) /\ _ =>
        exists l; split; [now left | cbn; intuition discriminate]
    end.
Qed.

(** C9. For each of the three endpoints: no error escapes the handler (it
    always completes with a response); when the connection attempt fails
    the response is HTTP 500 with body [{error: String(err)}] for the
    error rethrown by [connectToDb], after one connection attempt and
    nothing else; when a store command fails with [err] the response is
    HTTP 500 with body [{error: String(err)}], and the failed command was
    issued once, as the last thing the handler did (no retry); and a
    handler attempts the connection at most once. *)
Theorem errors_answered_500 (env : Env) (e : Endpoint) (warm : bool) :
  (exists resp, completion (handle env e warm) = JS.Normal resp) /\
  (forall err,
      warm = false -> connect env = Some err ->
      completion (handle env e warm) =
        JS.Normal
          {| status := 500;
             body := Failure (JS.String (JS.Error "Error" "Failed to connect to database")) |} /\
      trace (handle env e warm) = [Connect]) /\
  (forall cmd err,
      Store.fault (collection env) cmd = Some err ->
      In (Issued cmd) (trace (handle env e warm)) ->
      completion (handle env e warm) =
        JS.Normal {| status := 500; body := Failure (JS.String err) |} /\
      exists before,
        trace (handle env e warm) = (before ++ [Issued cmd])%list /\
        ~ In (Issued cmd) before) /\
  (exists rest,
      (trace (handle env e warm) = rest \/
       trace (handle env e warm) = Connect :: rest) /\
      ~ In Connect rest).
Proof.
  split; [apply handler_completes | split; [| split]].
  - intros err -> H. rewrite (connection_failure env e err H). now split.
  - intros cmd err Hf Hin. now apply store_failure.
  - apply one_connection_attempt.
Qed.

Lemma errors_answered_500_witness :
  (completion (handle Sample.down (ApiMedicine Sample.idB) false) =
     JS.Normal
       {| status := 500; body := Failure "Error: Failed to connect to database" |} /\
   trace (handle Sample.down (ApiMedicine Sample.idB) false) = [Connect]) /\
  completion (handle Sample.flaky (ApiMedicine "sku-17") true) =
    JS.Normal
      {| status := 500; body := Failure "MongoNetworkError: connection timed out" |}.
Proof.
  split.
  - exact (proj1 (proj2 (errors_answered_500 Sample.down (ApiMedicine Sample.idB) false))
             _ eq_refl eq_refl).
  - exact (proj1 (proj1 (proj2 (proj2
             (errors_answered_500 Sample.flaky (ApiMedicine "sku-17") true)))
             (Store.FindOne (Store.ById (Store.RawId "sku-17")) None)
             Sample.timed_out eq_refl (or_introl eq_refl))).
Defined.

(* ===================================================================== *)
(** ** Search: blank query *)
(* ===================================================================== *)

(** A low surrogate is no white space, so the code units of a character
    are white space only when the character is. *)
Lemma units_space (p : Z) :
  forallb JS.is_space (JS.units p) = true -> JS.is_space p = true.
Proof.
  unfold JS.units. destruct (p <? 65536); cbn [forallb].
  - now rewrite andb_true_r.
  - pose proof (Z.mod_pos_bound (p - 65536) 1024 ltac:(lia)) as Hm.
    set (m := (p - 65536) mod 1024) in *.
    assert (E : JS.is_space (56320 + m) = false) by not_space.
    rewrite E, andb_false_r. discriminate.
Qed.

Lemma blank_characters (chs : list (Z * list ascii)) :
  forallb JS.is_space (JS.units_of chs) = true ->
  forallb (fun ch => JS.is_space (fst ch)) chs = true.
Proof.
  induction chs as [| ch r IH]; [reflexivity |].
  unfold JS.units_of. cbn [flat_map forallb].
  rewrite forallb_app, andb_true_iff. intros [H1 H2].
  now rewrite (units_space _ H1), (IH H2).
Qed.

Lemma trimStart_blank (l : list (Z * list ascii)) :
  forallb (fun ch => JS.is_space (fst ch)) l = true -> JS.trimStart l = [].
Proof.
  induction l as [| c l IH]; cbn; [reflexivity |].
  destruct (JS.is_space (fst c)); cbn; [exact IH | discriminate].
Qed.

Lemma trim_blank (s : string) :
  whitespace_only s = true -> JS.trim s = "".
Proof.
  unfold whitespace_only, JS.trim, JS.chars. intros H.
  rewrite (trimStart_blank _ (blank_characters _ H)). reflexivity.
Qed.

Lemma trim_or_default_blank (a : option string) :
  (forall s, a = Some s -> whitespace_only s = true) ->
  JS.trim (JS.or_default a "") = "".
Proof.
  intros H. destruct a as [s |]; [| reflexivity].
  specialize (H s eq_refl).
  destruct s; [reflexivity |]. now apply trim_blank.
Qed.

(** C3, as the code has it. When a collection handle can be had (it is
    cached, or the connection attempt succeeds), a search whose [q] is
    absent, empty or only white space answers [{total: 0, documents: []}]
    and issues no query to the store: the only event is the connection
    attempt of a cold start. *)
Theorem blank_query_answers_empty (env : Env) (query : Query) (warm : bool) :
  reachable env warm ->
  (forall s, q query = Some s -> whitespace_only s = true) ->
  get_api_search env query warm =
    {| completion := JS.Normal {| status := 200; body := Page 0 [] |};
       cached := true;
       trace := connecting warm |}.
Proof.
  intros Hr Hq.
  unfold get_api_search, try_catch, bind.
  rewrite (connectToDb_reachable env warm Hr). cbn [completion cached trace].
  rewrite (trim_or_default_blank _ Hq). destruct warm; reflexivity.
Qed.

Lemma blank_query_answers_empty_witness :
  get_api_search Sample.up (Sample.query (Some "   ") None None) false =
    {| completion := JS.Normal {| status := 200; body := Page 0 [] |};
       cached := true;
       trace := [Connect] |} /\
  get_api_search Sample.up (Sample.query (Some Sample.blank) None None) true =
    {| completion := JS.Normal {| status := 200; body := Page 0 [] |};
       cached := true;
       trace := [] |}.
Proof.
  split.
  - apply (blank_query_answers_empty Sample.up
             (Sample.query (Some "   ") None None) false).
    + right. reflexivity.
    + intros s H. injection H as <-. reflexivity.
  - apply (blank_query_answers_empty Sample.up
             (Sample.query (Some Sample.blank) None None) true).
    + left. reflexivity.
    + intros s H. injection H as <-. reflexivity.
Defined.

(** Counterexample to C3 as stated: with the store out of reach and no
    cached handle a blank query is answered 500, because the handler
    awaits [connectToDb] before it looks at [q]. *)
Lemma blank_query_store_down :
  completion
    (get_api_search Sample.down (Sample.query (Some "   ") None None) false) =
    JS.Normal
      {| status := 500; body := Failure "Error: Failed to connect to database" |} /\
  ~ (forall env query warm,
        (forall s, q query = Some s -> whitespace_only s = true) ->
        completion (get_api_search env query warm) =
          JS.Normal {| status := 200; body := Page 0 [] |}).
Proof.
  split; [reflexivity |].
  intros H.
  specialize (H Sample.down (Sample.query (Some "   ") None None) false).
  assert (Hq : forall s, q (Sample.query (Some "   ") None None) = Some s ->
                         whitespace_only s = true).
  { intros s E. injection E as <-. reflexivity. }
  specialize (H Hq). discriminate H.
Qed.

(* ===================================================================== *)
(** ** Page size *)
(* ===================================================================== *)

(** When [parseInt] reads a number, the size is clamped into [1, cap]. *)
Lemma size_of_number (cap : Z) (dflt : string) (query : Query) (n : Z) :
  1 <= cap ->
  JS.parseInt (JS.or_default (size query) dflt) = JS.Num n ->
  size_of cap dflt query = JS.Num (Z.min cap (Z.max 1 n)) /\
  1 <= Z.min cap (Z.max 1 n) <= cap.
Proof.
  intros Hcap H. unfold size_of. rewrite H. cbn. split; [reflexivity | lia].
Qed.

(** When it reads none, the size is [NaN]. *)
Lemma size_of_NaN (cap : Z) (dflt : string) (query : Query) :
  JS.parseInt (JS.or_default (size query) dflt) = JS.NaN ->
  size_of cap dflt query = JS.NaN.
Proof. intros H. unfold size_of. now rewrite H. Qed.

(** A size the handlers compute is [NaN] or a number from 1 to the cap:
    an infinite [parseInt] is clamped like a number. *)
Lemma size_of_cases (cap : Z) (dflt : string) (query : Query) :
  1 <= cap ->
  size_of cap dflt query = JS.NaN \/
  exists n, size_of cap dflt query = JS.Num n /\ 1 <= n <= cap.
Proof.
  intros Hcap.
  destruct (JS.parseInt (JS.or_default (size query) dflt)) as [| n | [|]] eqn:E.
  - left. now apply size_of_NaN.
  - right. destruct (size_of_number cap dflt query n Hcap E) as [H1 H2]. eauto.
  - right. exists (Z.min cap 1). unfold size_of. rewrite E. cbn.
    split; [reflexivity | lia].
  - right. exists cap. unfold size_of. rewrite E. cbn.
    split; [reflexivity | lia].
Qed.

(** A page the handlers compute is [NaN], a number of at least 0, or
    positive infinity. *)
Lemma page_of_cases (query : Query) :
  page_of query = JS.NaN \/
  (exists p, page_of query = JS.Num p /\ 0 <= p) \/
  page_of query = JS.Infinity false.
Proof.
  unfold page_of.
  destruct (JS.parseInt (JS.or_default (page query) "0")) as [| n | [|]]; cbn.
  - now left.
  - right. left. exists (Z.max 0 n). split; [reflexivity | lia].
  - right. left. exists 0. split; [reflexivity | lia].
  - now right; right.
Qed.

(** The sizes the specification lists: absent and empty give the default,
    0 is raised to 1, 9999 is lowered to the cap. *)
Example size_of_listed :
  map (size_of 200 "20")
    [Sample.query None None None; Sample.query None None (Some "");
     Sample.query None None (Some "0"); Sample.query None None (Some "9999")] =
    [JS.Num 20; JS.Num 20; JS.Num 1; JS.Num 200] /\
  map (size_of 500 "100")
    [Sample.query None None None; Sample.query None None (Some "");
     Sample.query None None (Some "0"); Sample.query None None (Some "9999")] =
    [JS.Num 100; JS.Num 100; JS.Num 1; JS.Num 500].
Proof. split; reflexivity. Qed.

(** C2, where the code departs from it. For [size=abc], [parseInt] gives
    [NaN], which [Math.max] and [Math.min] hand on: the effective size is
    [NaN], not a number of [1, 200] (search) or [1, 500] (alternatives),
    and the search handler issues its query with skip [NaN] and limit
    [NaN]. *)
Theorem size_not_a_number :
  size_of 200 "20" (Sample.query (Some "p") None (Some "abc")) = JS.NaN /\
  size_of 500 "100" (Sample.query None None (Some "abc")) = JS.NaN /\
  trace (get_api_search Sample.up (Sample.query (Some "p") None (Some "abc")) true) =
    [Issued
       (Store.Find
          (Store.BrandNameRegex
             (Regex.Pattern
                [[Regex.TBegin; Regex.TAtom (Regex.AChar "p") Regex.QOne]]))
          listing_projection JS.NaN JS.NaN)].
Proof. repeat split; reflexivity. Qed.

(* ===================================================================== *)
(** ** Search: how the query text is matched *)
(* ===================================================================== *)




(** The code units of a text of ASCII characters are its bytes. *)
Lemma characters_ascii (l : list ascii) :
  forallb (fun c => JS.code c <? 128) l = true ->
  JS.characters l = map (fun c => (JS.code c, [c])) l.
Proof.
  induction l as [| c r IH]; [reflexivity |].
  cbn [forallb]. rewrite andb_true_iff. intros [Hc Hr].
  cbn [JS.characters map]. rewrite Hc. now rewrite (IH Hr).
Qed.

Lemma units_of_ascii (l : list ascii) :
  forallb (fun c => JS.code c <? 128) l = true ->
  JS.units_of (map (fun c => (JS.code c, [c])) l) = map JS.code l.
Proof.
  induction l as [| c r IH]; [reflexivity |].
  cbn [forallb]. rewrite andb_true_iff. intros [Hc Hr].
  unfold JS.units_of in *. cbn [map flat_map fst]. rewrite (IH Hr).
  unfold JS.units.
  assert (E : (JS.code c <? 65536) = true)
    by (apply Z.ltb_lt; apply Z.ltb_lt in Hc; lia).
  now rewrite E.
Qed.








(** The example of the specification: "Paracetamol" is found by [para]
    and [PARA], not by [acet]. *)
Example paracetamol_prefix :
  map (fun text =>
         map brand_of
           (documents_of
              (get_api_search Sample.up (Sample.query (Some text) None None) true)))
      ["para"; "PARA"; "acet"] =
    [[Some (JS.VStr "Paracetamol"); Some (JS.VStr "Paracip");
      Some (JS.VStr "Paracetamol")];
     [Some (JS.VStr "Paracetamol"); Some (JS.VStr "Paracip");
      Some (JS.VStr "Paracetamol")];
     []].
Proof. reflexivity. Qed.

(** C1, where the code departs from it. The query text goes into the
    pattern unescaped, so its syntax characters act as pattern syntax:
    [q=.] returns "Paracetamol" (and every other record), which does not
    begin with "."; [q=a|b] returns "Zab", which begins with neither
    "a|b" nor "a" (the alternative [b] is not anchored); and [q=c++] is
    answered 500, the text being no valid pattern. *)
Theorem query_text_read_as_pattern :
  map brand_of
    (documents_of
       (get_api_search Sample.up (Sample.query (Some ".") None None) true)) =
    [Some (JS.VStr "Paracetamol"); Some (JS.VStr "Calpol");
     Some (JS.VStr "Paracip"); Some (JS.VStr "Zab");
     Some (JS.VStr "Paracetamol")] /\
  Regex.begins_with "." "Paracetamol" = false /\
  map brand_of
    (documents_of
       (get_api_search Sample.up (Sample.query (Some "a|b") None None) true)) =
    [Some (JS.VStr "Zab")] /\
  Regex.begins_with "a|b" "Zab" = false /\
  (exists description,
     response_of
       (get_api_search Sample.up (Sample.query (Some "c++") None None) true) =
       Some {| status := 500; body := Failure description |}).
Proof.
  split; [reflexivity |]. split; [reflexivity |].
  split; [reflexivity |]. split; [reflexivity |].
  eexists. reflexivity.
Qed.

(* ===================================================================== *)
(** ** Lookup by identifier *)
(* ===================================================================== *)

(** C5. The get-by-id handler queries [_id] with the native identifier
    built from [id] when [ObjectId.isValid(id)] holds and with the raw
    string otherwise, without projection. Whatever [id] is, when the store
    answers the lookup the response is 404 [{error: "Not found"}] if no
    record has that [_id], and 200 [{document}] with the stored record,
    all fields kept, if one has. *)
Theorem lookup_by_id (env : Env) (id : string) (warm : bool) :
  reachable env warm ->
  Store.fault (collection env)
    (Store.FindOne (Store.ById (id_key env id)) None) = None ->
  id_key env id =
    (if ObjectId_isValid env id then Store.NativeId (new_ObjectId env id)
     else Store.RawId id) /\
  trace (get_api_medicines_id env id warm) =
    (connecting warm ++
     [Issued (Store.FindOne (Store.ById (id_key env id)) None)])%list /\
  completion (get_api_medicines_id env id warm) =
    JS.Normal
      match base_of env id with
      | Some d => {| status := 200; body := Document d |}
      | None => {| status := 404; body := Failure "Not found" |}
      end.
Proof.
  intros Hr Hf. split; [reflexivity |].
  unfold get_api_medicines_id, try_catch, bind.
  rewrite (connectToDb_reachable env warm Hr).
  cbn [completion cached trace collection_findOne issue].
  unfold Store.findOne. rewrite Hf. fold (base_of env id).
  destruct (base_of env id) as [d |]; cbn; rewrite ?app_nil_r; split; reflexivity.
Qed.

Lemma lookup_by_id_witness :
  completion (get_api_medicines_id Sample.up "sku-17" false) =
    JS.Normal {| status := 200; body := Document Sample.E |} /\
  completion (get_api_medicines_id Sample.up "64b0000000000000000000ff" false) =
    JS.Normal {| status := 404; body := Failure "Not found" |} /\
  completion (get_api_medicines_id Sample.up "no such id" false) =
    JS.Normal {| status := 404; body := Failure "Not found" |}.
Proof.
  split; [| split].
  - exact (proj2 (proj2 (lookup_by_id Sample.up "sku-17" false
                           (or_intror eq_refl) eq_refl))).
  - exact (proj2 (proj2 (lookup_by_id Sample.up "64b0000000000000000000ff" false
                           (or_intror eq_refl) eq_refl))).
  - exact (proj2 (proj2 (lookup_by_id Sample.up "no such id" false
                           (or_intror eq_refl) eq_refl))).
Defined.

(* ===================================================================== *)
(** ** Alternatives: the base record *)
(* ===================================================================== *)

Lemma lookup_filter_kept (f : string) (keep : list string)
  (l : list (string * JS.value)) :
  existsb (String.eqb f) keep = true ->
  Store.lookup f (filter (fun kv => existsb (String.eqb (fst kv)) keep) l) =
  Store.lookup f l.
Proof.
  intros Hk. induction l as [| [k v] r IH]; [reflexivity |].
  cbn [filter fst Store.lookup].
  destruct (String.eqb k f) eqn:E.
  - apply String.eqb_eq in E. subst k. rewrite Hk. cbn [Store.lookup].
    now rewrite String.eqb_refl.
  - destruct (existsb (String.eqb k) keep); [| exact IH].
    cbn [Store.lookup]. now rewrite E.
Qed.

(** The base record keeps its [composition_key] and its [_id] through the
    projection of the base lookup. *)
Lemma base_projection (b : Store.Doc) :
  Store.get (Store.project (Some ["composition_key"]) b) "composition_key" =
    Store.get b "composition_key" /\
  Store._id (Store.project (Some ["composition_key"]) b) = Store._id b.
Proof.
  split; [| reflexivity].
  unfold Store.get, Store.project. cbn [Store.fields].
  now apply lookup_filter_kept.
Qed.

(** The handler up to the test on the base record. *)
Lemma alternatives_base (env : Env) (id : string) (query : Query) (warm : bool) :
  reachable env warm ->
  Store.fault (collection env) (base_lookup env id) = None ->
  match base_of env id with
  | Some b =>
      match Store.get b "composition_key" with
      | Some key => JS.truthy key = false
      | None => True
      end
  | None => True
  end ->
  get_api_medicines_id_alternatives env id query warm =
    {| completion := JS.Normal {| status := 200; body := Page 0 [] |};
       cached := true;
       trace := (connecting warm ++ [Issued (base_lookup env id)])%list |}.
Proof.
  intros Hr Hf Hb.
  unfold get_api_medicines_id_alternatives, try_catch, bind.
  rewrite (connectToDb_reachable env warm Hr).
  cbn [completion cached trace collection_findOne issue].
  unfold Store.findOne. fold (base_lookup env id). rewrite Hf.
  fold (base_of env id).
  destruct (base_of env id) as [b |]; cbn [option_map].
  - destruct (base_projection b) as [-> _].
    destruct (Store.get b "composition_key") as [key |].
    + rewrite Hb. destruct warm; reflexivity.
    + destruct warm; reflexivity.
  - destruct warm; reflexivity.
Qed.

(** C6. When the base lookup of the alternatives handler finds no record
    for [id], or finds one with no [composition_key] field, the response
    is [{total: 0, documents: []}] and the base lookup is the only query
    issued, whatever else the collection holds. *)
Theorem no_base_no_alternatives (env : Env) (id : string) (query : Query)
  (warm : bool) :
  reachable env warm ->
  Store.fault (collection env) (base_lookup env id) = None ->
  (forall b, base_of env id = Some b -> Store.get b "composition_key" = None) ->
  get_api_medicines_id_alternatives env id query warm =
    {| completion := JS.Normal {| status := 200; body := Page 0 [] |};
       cached := true;
       trace := (connecting warm ++ [Issued (base_lookup env id)])%list |}.
Proof.
  intros Hr Hf Hb. apply alternatives_base; trivial.
  destruct (base_of env id) as [b |]; [| exact I].
  now rewrite (Hb b eq_refl).
Qed.

(** C10. When the base record has a [composition_key] whose value is
    falsy (the empty string, [0], [NaN], [false], [null]), the response is
    [{total: 0, documents: []}] and the base lookup is the only query
    issued, as when the field is absent. *)
Theorem falsy_key_no_alternatives (env : Env) (id : string) (query : Query)
  (warm : bool) (b : Store.Doc) (key : JS.value) :
  reachable env warm ->
  Store.fault (collection env) (base_lookup env id) = None ->
  base_of env id = Some b ->
  Store.get b "composition_key" = Some key ->
  JS.truthy key = false ->
  get_api_medicines_id_alternatives env id query warm =
    {| completion := JS.Normal {| status := 200; body := Page 0 [] |};
       cached := true;
       trace := (connecting warm ++ [Issued (base_lookup env id)])%list |}.
Proof.
  intros Hr Hf Hb Hk Ht. apply alternatives_base; trivial.
  now rewrite Hb, Hk.
Qed.

Lemma no_base_no_alternatives_witness :
  get_api_medicines_id_alternatives Sample.up "sku-18"
    (Sample.query None None None) true =
    {| completion := JS.Normal {| status := 200; body := Page 0 [] |};
       cached := true;
       trace := [Issued (base_lookup Sample.up "sku-18")] |} /\
  get_api_medicines_id_alternatives Sample.up "no such id"
    (Sample.query None None None) true =
    {| completion := JS.Normal {| status := 200; body := Page 0 [] |};
       cached := true;
       trace := [Issued (base_lookup Sample.up "no such id")] |}.
Proof.
  split.
  - apply (no_base_no_alternatives Sample.up "sku-18"
             (Sample.query None None None) true (or_introl eq_refl) eq_refl).
    intros b Hb. injection Hb as <-. reflexivity.
  - apply (no_base_no_alternatives Sample.up "no such id"
             (Sample.query None None None) true (or_introl eq_refl) eq_refl).
    intros b Hb. discriminate Hb.
Defined.

Lemma falsy_key_no_alternatives_witness :
  get_api_medicines_id_alternatives Sample.up "sku-17"
    (Sample.query None None None) true =
    {| completion := JS.Normal {| status := 200; body := Page 0 [] |};
       cached := true;
       trace := [Issued (base_lookup Sample.up "sku-17")] |}.
Proof.
  exact (falsy_key_no_alternatives Sample.up "sku-17"
           (Sample.query None None None) true Sample.E (JS.VStr "")
           (or_introl eq_refl) eq_refl eq_refl eq_refl eq_refl).
Defined.

(* ===================================================================== *)
(** ** Order-keeping selections *)
(* ===================================================================== *)

Section SubseqFacts.

Context {A : Type}.

Lemma Subseq_nil_l (m : list A) : Subseq [] m.
Proof. induction m; constructor; assumption. Qed.

Lemma Subseq_refl (l : list A) : Subseq l l.
Proof. induction l; constructor; assumption. Qed.

Lemma Subseq_In (l m : list A) (x : A) : Subseq l m -> In x l -> In x m.
Proof.
  induction 1 as [| y l m _ IH | y l m _ IH]; cbn; intros Hx.
  - exact Hx.
  - right. now apply IH.
  - destruct Hx as [-> | Hx]; [now left | right; now apply IH].
Qed.

Lemma Subseq_trans (l m k : list A) : Subseq l m -> Subseq m k -> Subseq l k.
Proof.
  intros H1 H2. revert l H1.
  induction H2 as [| x m k _ IH | x m k _ IH]; intros l H1.
  - exact H1.
  - apply Subseq_skip. now apply IH.
  - inversion H1; subst.
    + apply Subseq_skip. now apply IH.
    + apply Subseq_keep. now apply IH.
Qed.

Lemma Subseq_firstn (n : nat) (l : list A) : Subseq (firstn n l) l.
Proof.
  revert l. induction n as [| n IH]; intros l; cbn.
  - apply Subseq_nil_l.
  - destruct l; [constructor | apply Subseq_keep, IH].
Qed.

Lemma Subseq_skipn (n : nat) (l : list A) : Subseq (skipn n l) l.
Proof.
  revert l. induction n as [| n IH]; intros l; cbn.
  - apply Subseq_refl.
  - destruct l; [constructor | apply Subseq_skip, IH].
Qed.

Lemma Subseq_filter (f : A -> bool) (l : list A) : Subseq (filter f l) l.
Proof.
  induction l as [| x l IH]; cbn; [constructor |].
  destruct (f x); constructor; exact IH.
Qed.

End SubseqFacts.

Lemma Subseq_map {A B : Type} (f : A -> B) (l m : list A) :
  Subseq l m -> Subseq (map f l) (map f m).
Proof. induction 1; cbn; constructor; assumption. Qed.

(** What a cursor returns is a selection, in native order, of the
    projected records. *)
Lemma window_Subseq {A B : Type} (f : A -> B) (keep : A -> bool)
  (s n : nat) (l : list A) :
  Subseq (firstn n (skipn s (map f (filter keep l)))) (map f l).
Proof.
  eapply Subseq_trans; [apply Subseq_firstn |].
  eapply Subseq_trans; [apply Subseq_skipn |].
  apply Subseq_map, Subseq_filter.
Qed.

(* ===================================================================== *)
(** ** Alternatives: the second query *)
(* ===================================================================== *)

(** *** Rounding *)

Lemma to_number_small (z : Z) : Z.abs z < 2 ^ 53 -> JS.to_number z = JS.Num z.
Proof.
  intros H. unfold JS.to_number.
  destruct (Z.abs z <? 2 ^ 53) eqn:E; [reflexivity |].
  apply Z.ltb_ge in E. lia.
Qed.

Lemma to_number_large (z : Z) :
  2 ^ 53 <= z ->
  JS.to_number z = JS.Infinity false \/
  exists m, JS.to_number z = JS.Num m /\ 2 ^ 53 <= m.
Proof.
  intros H. unfold JS.to_number.
  assert (Hz : 0 < z) by (pose proof (Z.pow_pos_nonneg 2 53); lia).
  rewrite (Z.abs_eq z) by lia.
  destruct (z <? 2 ^ 53) eqn:E; [apply Z.ltb_lt in E; lia |].
  set (e := Z.log2 z - 52).
  assert (He : 1 <= e).
  { unfold e. assert (53 <= Z.log2 z); [| lia].
    apply Z.log2_le_pow2; lia. }
  assert (Hp : 0 < 2 ^ e) by (apply Z.pow_pos_nonneg; lia).
  assert (Hq : 2 ^ 52 <= z / 2 ^ e).
  { apply Z.div_le_lower_bound; [exact Hp |].
    rewrite <- Z.pow_add_r by lia.
    replace (e + 52) with (Z.log2 z) by (unfold e; lia).
    apply Z.log2_spec. exact Hz. }
  set (q := z / 2 ^ e) in *.
  set (q' := if z mod 2 ^ e <? 2 ^ (e - 1) then q
             else if 2 ^ (e - 1) <? z mod 2 ^ e then q + 1
             else if Z.even q then q else q + 1).
  assert (Hq' : q <= q').
  { unfold q'. repeat match goal with |- context [if ?b then _ else _] =>
                        destruct b end; lia. }
  destruct (2 ^ 1024 <=? q' * 2 ^ e); [left | right].
  - assert (Hs : (z <? 0) = false) by (apply Z.ltb_ge; lia). now rewrite Hs.
  - exists (q' * 2 ^ e). rewrite (Z.sgn_pos z Hz). split; [f_equal; lia |].
    assert (2 ^ 1 <= 2 ^ e) by (apply Z.pow_le_mono_r; lia).
    change (2 ^ 53) with (2 ^ 52 * 2 ^ 1).
    assert (0 < 2 ^ 52) by (apply Z.pow_pos_nonneg; lia).
    nia.
Qed.

(** Rounding keeps the sign: what is at least 0 rounds to a number of at
    least 0 or to positive infinity. *)
Lemma to_number_nonneg (z : Z) :
  0 <= z ->
  JS.to_number z = JS.Infinity false \/
  exists m, JS.to_number z = JS.Num m /\ 0 <= m.
Proof.
  intros Hz. destruct (Z.lt_ge_cases z (2 ^ 53)) as [Hs | Hl].
  - right. exists z. split; [| exact Hz].
    apply to_number_small. now rewrite Z.abs_eq.
  - destruct (to_number_large z Hl) as [E | (m & E & Hm)]; [now left |].
    right. exists m. split; [exact E |].
    pose proof (Z.pow_pos_nonneg 2 53). lia.
Qed.

(** *** Page and size *)

Lemma page_of_nonneg (query : Query) (p : Z) :
  page_of query = JS.Num p -> 0 <= p.
Proof.
  unfold page_of.
  destruct (JS.parseInt (JS.or_default (page query) "0")) as [| z | [|]]; cbn;
    try discriminate; intros H; injection H as <-; lia.
Qed.

Lemma size_of_bounds (cap : Z) (dflt : string) (query : Query) (n : Z) :
  1 <= cap -> size_of cap dflt query = JS.Num n -> 1 <= n <= cap.
Proof.
  intros Hcap H. destruct (size_of_cases cap dflt query Hcap) as [E | (m & E & Hm)];
    rewrite E in H; [discriminate |].
  injection H as <-. exact Hm.
Qed.

Lemma apply_skip_skipn {A : Type} (s : Z) (l : list A) :
  0 <= s -> Store.apply_skip s l = skipn (Z.to_nat s) l.
Proof.
  intros Hs. unfold Store.apply_skip.
  destruct (Z.of_nat (length l) <=? s) eqn:E; [| reflexivity].
  apply Z.leb_le in E. now rewrite skipn_all2 by lia.
Qed.

(** A query the store answers, with a skip of at least 0 and a limit of
    at least 1: the window of the projected matches. *)
Lemma find_toArray_window (c : Store.Collection) (f : Store.Filter)
  (p : Store.Projection) (s n : Z) :
  Store.fault c (Store.Find f p (JS.Num s) (JS.Num n)) = None ->
  0 <= s -> 1 <= n ->
  Store.find_toArray c f p (JS.Num s) (JS.Num n) =
    JS.Normal
      (firstn (Z.to_nat n)
         (skipn (Z.to_nat s)
            (map (Store.project p) (filter (Store.satisfies f) (Store.records c))))).
Proof.
  intros Hf Hs Hn. unfold Store.find_toArray, Store.apply_limit. rewrite Hf.
  destruct (s <? 0) eqn:E1; [apply Z.ltb_lt in E1; lia |].
  destruct (n =? 0) eqn:E2; [apply Z.eqb_eq in E2; lia |].
  rewrite Zabs2Nat.abs_nat_nonneg by lia.
  now rewrite apply_skip_skipn by lia.
Qed.

(** The same with the skip the handlers compute, the product
    [page * size] rounded to a double: where the rounding changes the
    product, both are beyond the number of records. *)
Lemma find_toArray_product (c : Store.Collection) (f : Store.Filter)
  (proj : Store.Projection) (p n : Z) :
  Store.fault c
    (Store.Find f proj (JS.mul (JS.Num p) (JS.Num n)) (JS.Num n)) = None ->
  0 <= p -> 1 <= n ->
  Store.find_toArray c f proj (JS.mul (JS.Num p) (JS.Num n)) (JS.Num n) =
    JS.Normal
      (firstn (Z.to_nat n)
         (skipn (Z.to_nat (p * n))
            (map (Store.project proj)
               (filter (Store.satisfies f) (Store.records c))))).
Proof.
  intros Hf Hp Hn. cbn [JS.mul] in *.
  destruct (Z.lt_ge_cases (p * n) (2 ^ 53)) as [Hs | Hl].
  - rewrite to_number_small in * by (rewrite Z.abs_eq; nia).
    apply find_toArray_window; [exact Hf | nia | exact Hn].
  - set (L := map (Store.project proj)
                (filter (Store.satisfies f) (Store.records c))).
    assert (HL : Z.of_nat (length L) < 2 ^ 53).
    { pose proof (Store.countable c) as Hc.
      pose proof (filter_length_le (Store.satisfies f) (Store.records c)) as Hle.
      unfold L. rewrite length_map. lia. }
    rewrite (skipn_all2 L) by lia. rewrite firstn_nil.
    unfold Store.find_toArray.
    destruct (to_number_large (p * n) Hl) as [E | (m & E & Hm)];
      rewrite E in *; rewrite Hf.
    + reflexivity.
    + destruct (m <? 0) eqn:E1; [apply Z.ltb_lt in E1; lia |].
      fold L. unfold Store.apply_skip.
      destruct (Z.of_nat (length L) <=? m) eqn:E2;
        [| apply Z.leb_gt in E2; lia].
      unfold Store.apply_limit. destruct (n =? 0); [reflexivity |].
      now rewrite firstn_nil.
Qed.

Lemma satisfies_same_key (key : JS.value) (i : Store.IdValue) (d : Store.Doc) :
  Store.satisfies (Store.SameKeyExcept key i) d = true <->
  exists v, Store.get d "composition_key" = Some v /\
            JS.value_eqb v key = true /\
            Store.id_eqb (Store._id d) i = false.
Proof.
  unfold Store.satisfies.
  destruct (Store.get d "composition_key") as [v |].
  - rewrite andb_true_iff, negb_true_iff. split.
    + intros [H1 H2]. now exists v.
    + intros (w & E & H1 & H2). injection E as <-. now split.
  - split; [discriminate | intros (w & E & _); discriminate].
Qed.

(** C7. When the base lookup finds a record [b] whose [composition_key]
    is [key] (a truthy value) and [page] and [size] are numbers, the
    handler answers with the window [skip = page * size], [limit = size]
    of the records that carry the same [composition_key] and another
    [_id] than [b], in the projection of search. So no returned document
    has the [_id] of [b], each one shares the key, and on page 0 with a
    size that covers the matches every other record sharing the key is
    returned. *)
Theorem alternatives_share_key (env : Env) (id : string) (query : Query)
  (warm : bool) (b : Store.Doc) (key : JS.value) (p n : Z) :
  reachable env warm ->
  (forall cmd, Store.fault (collection env) cmd = None) ->
  base_of env id = Some b ->
  Store.get b "composition_key" = Some key ->
  JS.truthy key = true ->
  page_of query = JS.Num p ->
  size_of 500 "100" query = JS.Num n ->
  let matching :=
    filter (Store.satisfies (Store.SameKeyExcept key (Store._id b)))
      (Store.records (collection env)) in
  let docs :=
    firstn (Z.to_nat n) (skipn (Z.to_nat (p * n)) (map listed matching)) in
  completion (get_api_medicines_id_alternatives env id query warm) =
    JS.Normal {| status := 200; body := Page (length docs) docs |} /\
  (forall d, In d docs ->
     Store.id_eqb (Store._id d) (Store._id b) = false /\
     exists c v, In c (Store.records (collection env)) /\ d = listed c /\
                 Store.get c "composition_key" = Some v /\
                 JS.value_eqb v key = true) /\
  (p = 0 -> (length matching <= Z.to_nat n)%nat ->
   forall c v, In c (Store.records (collection env)) ->
     Store.get c "composition_key" = Some v ->
     JS.value_eqb v key = true ->
     Store.id_eqb (Store._id c) (Store._id b) = false ->
     In (listed c) docs).
Proof.
  intros Hr Hf Hb Hk Ht Hp Hn matching docs.
  pose proof (page_of_nonneg query p Hp) as Hp0.
  pose proof (size_of_bounds 500 "100" query n ltac:(lia) Hn) as Hn1.
  split; [| split].
  - unfold get_api_medicines_id_alternatives, try_catch, bind.
    rewrite (connectToDb_reachable env warm Hr).
    cbn [completion cached trace collection_findOne issue].
    unfold Store.findOne. rewrite Hf. fold (base_of env id). rewrite Hb.
    cbn [option_map].
    destruct (base_projection b) as [-> ->]. rewrite Hk, Ht, Hp, Hn.
    cbn [negb collection_find issue completion cached trace].
    rewrite find_toArray_product by (auto; lia).
    reflexivity.
  - intros d Hd. unfold docs in Hd.
    apply (Subseq_In _ _ d (Subseq_firstn _ _)) in Hd.
    apply (Subseq_In _ _ d (Subseq_skipn _ _)) in Hd.
    apply in_map_iff in Hd.
    destruct Hd as (c & <- & Hc). unfold matching in Hc.
    apply filter_In in Hc. destruct Hc as [Hc Hs].
    apply satisfies_same_key in Hs. destruct Hs as (v & Hv & He & Hi).
    split; [exact Hi |]. now exists c, v.
  - intros -> Hlen c v Hc Hv He Hi. unfold docs.
    rewrite Z.mul_0_l. cbn [Z.to_nat skipn].
    rewrite firstn_all2 by (now rewrite length_map).
    apply in_map. unfold matching. apply filter_In. split; [exact Hc |].
    apply satisfies_same_key. now exists v.
Qed.

(** The example of the specification: the alternatives of [B] are [C1]
    and [C2], and not [B]. *)
Lemma alternatives_share_key_witness :
  completion
    (get_api_medicines_id_alternatives Sample.up Sample.idB
       (Sample.query None None None) true) =
    JS.Normal
      {| status := 200;
         body := Page 2 [listed Sample.C1; listed Sample.C2] |}.
Proof.
  exact (proj1 (alternatives_share_key Sample.up Sample.idB
                  (Sample.query None None None) true Sample.B
                  (JS.VStr "paracetamol-500") 0 100
                  (or_introl eq_refl) (fun _ => eq_refl) eq_refl eq_refl eq_refl
                  eq_refl eq_refl)).
Defined.

(* ===================================================================== *)
(** ** The [total] field *)
(* ===================================================================== *)

Lemma find_toArray_Subseq (c : Store.Collection) (f : Store.Filter)
  (p : Store.Projection) (s n : JS.number) (docs : list Store.Doc) :
  Store.find_toArray c f p s n = JS.Normal docs ->
  Subseq docs (map (Store.project p) (Store.records c)).
Proof.
  unfold Store.find_toArray, Store.apply_limit, Store.apply_skip.
  destruct (Store.fault c _); [discriminate |].
  destruct s as [| s | [|]]; destruct n as [| n | sn]; try discriminate.
  - destruct (s <? 0); [discriminate |].
    intros H. injection H as <-.
    destruct (n =? 0), (Z.of_nat _ <=? s); try apply Subseq_nil_l.
    + eapply Subseq_trans; [apply Subseq_skipn |].
      apply Subseq_map, Subseq_filter.
    + rewrite firstn_nil. apply Subseq_nil_l.
    + apply window_Subseq.
  - intros H. injection H as <-. apply Subseq_nil_l.
Qed.








(** [total] is not the number of matching records: with [size=1] the
    search for [p] reports 1, and three records match. *)
Example total_not_full_count :
  response_of
    (get_api_search Sample.up (Sample.query (Some "p") None (Some "1")) true) =
    Some {| status := 200; body := Page 1 [listed Sample.B] |} /\
  length
    (documents_of
       (get_api_search Sample.up (Sample.query (Some "p") None None) true)) = 3%nat.
Proof. split; reflexivity. Qed.

(* ===================================================================== *)
(** ** Pagination *)
(* ===================================================================== *)

(** *** [parseInt] on decimal notation *)

Lemma digit_code (d : Z) : 0 <= d < 10 -> JS.code (digit d) = 48 + d.
Proof.
  intros H.
  assert (E : d = 0 \/ d = 1 \/ d = 2 \/ d = 3 \/ d = 4 \/
              d = 5 \/ d = 6 \/ d = 7 \/ d = 8 \/ d = 9) by lia.
  repeat destruct E as [E | E]; subst d; reflexivity.
Qed.

Lemma decimal_char_code (c : ascii) :
  decimal_char c -> 48 <= JS.code c <= 57.
Proof. intros (d & Hd & ->). rewrite (digit_code d Hd). lia. Qed.

Lemma radix_digit_decimal (u : Z) :
  48 <= u <= 57 -> JS.radix_digit 10 u = Some (u - 48).
Proof.
  intros H. unfold JS.radix_digit, JS.digit_value.
  assert (E1 : ((48 <=? u) && (u <=? 57)) = true)
    by (apply andb_true_iff; split; apply Z.leb_le; lia).
  assert (E2 : (u - 48 <? 10) = true) by (apply Z.ltb_lt; lia).
  now rewrite E1, E2.
Qed.

Lemma read_digits_snoc (l : list Z) (u d : Z) :
  Forall (fun x => 48 <= x <= 57) l ->
  JS.radix_digit 10 u = Some d ->
  forall acc,
    JS.read_digits 10 (l ++ [u]) acc =
    Some (match JS.read_digits 10 l acc with
          | Some a => a * 10 + d
          | None => d
          end).
Proof.
  intros Hl Hu. induction Hl as [| x l Hx _ IH]; intros acc.
  - cbn. now rewrite Hu.
  - cbn [app JS.read_digits]. rewrite (radix_digit_decimal x Hx). apply IH.
Qed.

Lemma decimal_digits_spec (fuel : nat) :
  forall n, 0 <= n < Z.of_nat fuel ->
    Forall decimal_char (decimal_digits fuel n) /\
    JS.read_digits 10 (map JS.code (decimal_digits fuel n)) None = Some n /\
    decimal_digits fuel n <> [].
Proof.
  induction fuel as [| fuel IH]; intros n Hn; [lia |].
  cbn [decimal_digits]. destruct (n <? 10) eqn:E.
  - apply Z.ltb_lt in E. assert (Hd : 0 <= n < 10) by lia.
    repeat split.
    + constructor; [now exists n | constructor].
    + cbn [map JS.read_digits].
      rewrite (digit_code n Hd), radix_digit_decimal by lia.
      f_equal. lia.
    + discriminate.
  - apply Z.ltb_ge in E.
    assert (Hq : 0 <= n / 10 < Z.of_nat fuel).
    { split; [apply Z.div_pos; lia |].
      assert (n / 10 < n) by (apply Z.div_lt; lia). lia. }
    assert (Hd : 0 <= n mod 10 < 10) by (apply Z.mod_pos_bound; lia).
    destruct (IH (n / 10) Hq) as (H1 & H2 & _).
    repeat split.
    + apply Forall_app. split; [exact H1 |].
      constructor; [now exists (n mod 10) | constructor].
    + rewrite map_app. cbn [map].
      rewrite (read_digits_snoc _ _ (n mod 10)).
      * rewrite H2. f_equal. rewrite (Z.div_mod n 10) at 3 by lia. lia.
      * apply Forall_map. revert H1. apply Forall_impl.
        exact decimal_char_code.
      * rewrite (digit_code _ Hd), radix_digit_decimal by lia. f_equal. lia.
    + intros H. apply app_eq_nil in H. destruct H as [_ H]. discriminate H.
Qed.

Lemma decimal_chars_ascii (l : list ascii) :
  Forall decimal_char l -> forallb (fun c => JS.code c <? 128) l = true.
Proof.
  intros H. apply forallb_forall. intros c Hc.
  rewrite Forall_forall in H. pose proof (decimal_char_code c (H c Hc)).
  apply Z.ltb_lt. lia.
Qed.

(** On a non-empty run of decimal digits [parseInt] skips nothing and reads
    the digits in radix 10; a value below 2^53 is read exactly. *)
Lemma parseInt_decimal_chars (l : list ascii) (m : Z) :
  Forall decimal_char l -> l <> [] ->
  JS.read_digits 10 (map JS.code l) None = Some m ->
  0 <= m < 2 ^ 53 ->
  JS.parseInt (JS.str l) = JS.Num m.
Proof.
  intros Hl Hne Hm Hb. unfold JS.parseInt, JS.bytes, JS.str.
  rewrite list_ascii_of_string_of_list_ascii.
  rewrite (characters_ascii _ (decimal_chars_ascii _ Hl)).
  pose proof (decimal_chars_ascii _ Hl) as Ha.
  destruct Hl as [| c r Hc Hr]; [contradiction |].
  pose proof (decimal_char_code c Hc) as Hcode.
  cbn [map JS.trimStart fst].
  assert (Hs : JS.is_space (JS.code c) = false) by not_space.
  rewrite Hs.
  change ((JS.code c, [c]) :: map (fun c0 => (JS.code c0, [c0])) r)
    with (map (fun c0 => (JS.code c0, [c0])) (c :: r)).
  rewrite (units_of_ascii _ Ha). cbn [map JS.strip_sign].
  assert (E1 : (JS.code c =? 45) = false) by (apply Z.eqb_neq; lia).
  assert (E2 : (JS.code c =? 43) = false) by (apply Z.eqb_neq; lia).
  rewrite E1, E2.
  assert (Hx : JS.strip_hex_prefix (JS.code c :: map JS.code r) =
               (10, JS.code c :: map JS.code r)).
  { destruct Hr as [| x r' Hx _]; [reflexivity |].
    pose proof (decimal_char_code x Hx) as Hxc.
    cbn [map JS.strip_hex_prefix].
    assert (E3 : (JS.code x =? 120) = false) by (apply Z.eqb_neq; lia).
    assert (E4 : (JS.code x =? 88) = false) by (apply Z.eqb_neq; lia).
    now rewrite E3, E4, andb_false_r. }
  rewrite Hx. cbn [map] in Hm. rewrite Hm.
  rewrite Z.mul_1_l. apply to_number_small. lia.
Qed.

Lemma decimal_not_empty (k : nat) : decimal k <> "".
Proof.
  unfold decimal, JS.str.
  destruct (decimal_digits_spec (S k) (Z.of_nat k) ltac:(lia)) as (_ & _ & H).
  destruct (decimal_digits (S k) (Z.of_nat k)); [contradiction | discriminate].
Qed.

Lemma parseInt_decimal (k : nat) :
  Z.of_nat k < 2 ^ 53 ->
  JS.parseInt (decimal k) = JS.Num (Z.of_nat k).
Proof.
  intros Hk.
  destruct (decimal_digits_spec (S k) (Z.of_nat k) ltac:(lia)) as (H1 & H2 & H3).
  apply parseInt_decimal_chars; auto. lia.
Qed.

Lemma or_default_given (s d : string) : s <> "" -> JS.or_default (Some s) d = s.
Proof. destruct s; [contradiction | reflexivity]. Qed.

Lemma or_default_empty (s : string) : JS.or_default (Some s) "" = s.
Proof. destruct s; reflexivity. Qed.

(** The page a client asks for in decimal notation is the page the
    handler computes, for a page number the language holds exactly. *)
Lemma page_of_decimal (text size : option string) (k : nat) :
  Z.of_nat k < 2 ^ 53 ->
  page_of {| q := text; page := Some (decimal k); size := size |} =
  JS.Num (Z.of_nat k).
Proof.
  intros Hk. unfold page_of. cbn [page].
  rewrite (or_default_given _ _ (decimal_not_empty k)), parseInt_decimal by exact Hk.
  cbn. f_equal. lia.
Qed.

(** *** One page of a search *)

(** A search the store answers, for a query text that is not blank and
    compiles to [re], with numeric [page] and [size]. *)
Lemma search_page (env : Env) (query : Query) (warm : bool) (text : string)
  (re : Regex.RegExp) (p n : Z) :
  reachable env warm ->
  (forall cmd, Store.fault (collection env) cmd = None) ->
  q query = Some text ->
  JS.is_empty (JS.trim text) = false ->
  RegExp_constructor env ("^" ++ JS.trim text) = JS.Normal re ->
  page_of query = JS.Num p ->
  size_of 200 "20" query = JS.Num n ->
  let docs :=
    firstn (Z.to_nat n)
      (skipn (Z.to_nat (p * n))
         (map listed
            (filter (Store.satisfies (Store.BrandNameRegex re))
               (Store.records (collection env))))) in
  completion (get_api_search env query warm) =
    JS.Normal {| status := 200; body := Page (length docs) docs |} /\
  cached (get_api_search env query warm) = true.
Proof.
  intros Hr Hf Hq Hne Hre Hp Hn docs.
  pose proof (page_of_nonneg query p Hp) as Hp0.
  pose proof (size_of_bounds 200 "20" query n ltac:(lia) Hn) as Hn1.
  unfold get_api_search, try_catch, bind.
  rewrite (connectToDb_reachable env warm Hr).
  cbn [completion cached trace].
  rewrite Hq, or_default_empty, Hne, Hp, Hn.
  unfold new_RegExp, complete. rewrite Hre.
  cbn [collection_find issue completion cached trace].
  rewrite find_toArray_product by (auto; lia).
  split; reflexivity.
Qed.

(** A search for a blank text, when a handle can be had. *)
Lemma search_blank (env : Env) (query : Query) (warm : bool) (text : string) :
  reachable env warm ->
  q query = Some text ->
  JS.is_empty (JS.trim text) = true ->
  documents_of (get_api_search env query warm) = [] /\
  cached (get_api_search env query warm) = true.
Proof.
  intros Hr Hq He.
  unfold get_api_search, try_catch, bind, documents_of.
  rewrite (connectToDb_reachable env warm Hr).
  cbn [completion cached trace].
  rewrite Hq, or_default_empty, He. split; reflexivity.
Qed.

(** *** Reading page after page *)

Lemma firstn_S_split {A : Type} (k : nat) (l : list A) :
  firstn (S k) l = (firstn 1 l ++ firstn k (skipn 1 l))%list.
Proof. destruct l; [cbn; now rewrite firstn_nil | reflexivity]. Qed.

Lemma skipn_S {A : Type} (i : nat) (l : list A) :
  skipn 1 (skipn i l) = skipn (S i) l.
Proof.
  revert l. induction i as [| i IH]; intros l; [reflexivity |].
  destruct l; [reflexivity | apply IH].
Qed.

(** Pages of one document, from page [first] on, put end to end, are the
    window of that many matches. *)
Lemma read_pages_window (env : Env) (text : string) (re : Regex.RegExp) :
  (forall cmd, Store.fault (collection env) cmd = None) ->
  JS.is_empty (JS.trim text) = false ->
  RegExp_constructor env ("^" ++ JS.trim text) = JS.Normal re ->
  forall (count first : nat) (warm : bool),
    reachable env warm ->
    Z.of_nat (first + count) <= 2 ^ 53 ->
    read_pages env text warm first count =
    firstn count
      (skipn first
         (map listed
            (filter (Store.satisfies (Store.BrandNameRegex re))
               (Store.records (collection env))))).
Proof.
  intros Hf Hne Hre.
  induction count as [| count IH]; intros first warm Hr Hb; [reflexivity |].
  cbn [read_pages].
  destruct (search_page env
              {| q := Some text; page := Some (decimal first); size := Some "1" |}
              warm text re (Z.of_nat first) 1 Hr Hf eq_refl Hne Hre
              (page_of_decimal (Some text) (Some "1") first ltac:(lia)) eq_refl)
    as [Hc Hw].
  unfold documents_of at 1. rewrite Hc, Hw.
  rewrite (IH (S first) true (or_introl eq_refl)) by lia.
  rewrite firstn_S_split, skipn_S.
  rewrite Z.mul_1_r, Nat2Z.id. reflexivity.
Qed.

Lemma read_pages_blank (env : Env) (text : string) :
  JS.is_empty (JS.trim text) = true ->
  forall (count first : nat) (warm : bool),
    reachable env warm -> read_pages env text warm first count = [].
Proof.
  intros He. induction count as [| count IH]; intros first warm Hr;
    [reflexivity |].
  cbn [read_pages].
  destruct (search_blank env
              {| q := Some text; page := Some (decimal first); size := Some "1" |}
              warm text Hr eq_refl He) as [-> ->].
  apply (IH (S first) true (or_introl eq_refl)).
Qed.

(** C8. With the collection fixed and the store answering, let [N] be
    the number of records that match the query text. Reading pages
    [0..N-1] with [size=1], one request after the other, and putting the
    pages end to end gives the same sequence of documents as one request
    for page 0 whose size covers [N]; for a text that is not blank this
    sequence is all the matches, projected, in native order. *)
Theorem pagination_consistent (env : Env) (text : string) (re : Regex.RegExp)
  (query : Query) (warm warm' : bool) (n : Z) :
  reachable env warm ->
  reachable env warm' ->
  (forall cmd, Store.fault (collection env) cmd = None) ->
  RegExp_constructor env ("^" ++ JS.trim text) = JS.Normal re ->
  q query = Some text ->
  page_of query = JS.Num 0 ->
  size_of 200 "20" query = JS.Num n ->
  let matching :=
    filter (Store.satisfies (Store.BrandNameRegex re))
      (Store.records (collection env)) in
  (length matching <= Z.to_nat n)%nat ->
  read_pages env text warm 0 (length matching) =
    documents_of (get_api_search env query warm') /\
  (JS.is_empty (JS.trim text) = false ->
   read_pages env text warm 0 (length matching) = map listed matching).
Proof.
  intros Hr Hr' Hf Hre Hq Hp Hn matching Hlen.
  destruct (JS.is_empty (JS.trim text)) eqn:He.
  - split; [| discriminate].
    rewrite (read_pages_blank env text He _ 0%nat warm Hr).
    now destruct (search_blank env query warm' text Hr' Hq He) as [-> _].
  - rewrite (read_pages_window env text re Hf He Hre _ 0%nat warm Hr).
    2: { pose proof (Store.countable (collection env)) as Hc.
         pose proof (filter_length_le
                       (Store.satisfies (Store.BrandNameRegex re))
                       (Store.records (collection env))) as Hl.
         unfold matching. cbn [Nat.add]. lia. }
    fold matching. cbn [skipn].
    rewrite firstn_all2 by (now rewrite length_map).
    split; [| reflexivity].
    destruct (search_page env query warm' text re 0 n Hr' Hf Hq He Hre Hp Hn)
      as [Hc _].
    unfold documents_of. rewrite Hc. fold matching.
    rewrite Z.mul_0_l. cbn [Z.to_nat skipn].
    now rewrite firstn_all2 by (now rewrite length_map).
Qed.

Lemma pagination_consistent_witness :
  read_pages Sample.up "p" false 0 3 =
    documents_of
      (get_api_search Sample.up (Sample.query (Some "p") None None) false) /\
  read_pages Sample.up "p" false 0 3 =
    [listed Sample.B; listed Sample.C2; listed Sample.F].
Proof.
  split.
  - exact (proj1 (pagination_consistent Sample.up "p"
                    (Regex.Pattern
                       [[Regex.TBegin; Regex.TAtom (Regex.AChar "p") Regex.QOne]])
                    (Sample.query (Some "p") None None) false false 20
                    (or_intror eq_refl) (or_intror eq_refl) (fun _ => eq_refl)
                    eq_refl eq_refl eq_refl eq_refl ltac:(vm_compute; lia))).
  - exact (proj2 (pagination_consistent Sample.up "p"
                    (Regex.Pattern
                       [[Regex.TBegin; Regex.TAtom (Regex.AChar "p") Regex.QOne]])
                    (Sample.query (Some "p") None None) false false 20
                    (or_intror eq_refl) (or_intror eq_refl) (fun _ => eq_refl)
                    eq_refl eq_refl eq_refl eq_refl ltac:(vm_compute; lia)) eq_refl).
Defined.

(* ===================================================================== *)
(** ** The cached connection across requests *)
(* ===================================================================== *)

(** A request that finds the cache set leaves it set and attempts no
    connection. *)
Lemma warm_request (env : Env) (e : Endpoint) :
  cached (handle env e true) = true /\
  ~ In Connect (trace (handle env e true)).
Proof.
  destruct e; run_proc; run_cases; split;
    try reflexivity; cbn; intuition discriminate.
Qed.

(** A cold request whose connection attempt succeeds sets the cache; the
    attempt is its first event and its only one. *)
Lemma cold_request (env : Env) (e : Endpoint) :
  connect env = None ->
  cached (handle env e false) = true /\
  exists rest,
    trace (handle env e false) = Connect :: rest /\ ~ In Connect rest.
Proof.
  intros Hc. destruct e; run_proc; rewrite Hc; run_proc; run_cases;
    (split; [reflexivity |]); eexists; (split; [reflexivity |]);
    cbn; intuition discriminate.
Qed.

(** Whatever the store answers, a request that finds the cache unset
    attempts a connection first. *)
Lemma cold_attempt (env : Env) (e : Endpoint) :
  exists rest, trace (handle env e false) = Connect :: rest.
Proof.
  destruct e; run_proc; destruct (connect env); run_proc; run_cases;
    eexists; reflexivity.
Qed.

Lemma cold_connects (env : Env) (e : Endpoint) :
  connects (handle env e false) = true.
Proof.
  unfold connects. destruct (cold_attempt env e) as [rest ->]. reflexivity.
Qed.

Lemma warm_connects (env : Env) (e : Endpoint) :
  connects (handle env e true) = false.
Proof.
  unfold connects. destruct (warm_request env e) as [_ H].
  destruct (existsb _ _) eqn:E; [| reflexivity].
  apply existsb_exists in E. destruct E as ([| c] & Hin & Hx);
    [contradiction | discriminate].
Qed.


Lemma observed_one_by_one (env : Env) (requests : list Endpoint) :
  forall warm seen,
    observed env (one_by_one (length seen) requests) warm seen =
    (seen ++ observed env (one_by_one 0 requests) warm [])%list.
Proof.
  induction requests as [| e rest IH]; intros warm seen;
    cbn [one_by_one observed app nth_error length].
  - now rewrite app_nil_r.
  - rewrite nth_error_app2, Nat.sub_diag by lia. cbn [nth_error].
    replace (S (length seen)) with (length (seen ++ [(e, warm)]))
      by (rewrite length_app; cbn [length]; lia).
    rewrite IH. rewrite (IH _ [(e, warm)]). now rewrite <- app_assoc.
Qed.

(** Without overlap each request starts from the cache the previous one
    left. *)
Lemma arrivals_cons (env : Env) (e : Endpoint) (rest : list Endpoint)
  (warm : bool) :
  arrivals env (one_by_one 0 (e :: rest)) warm =
  (e, warm) :: arrivals env (one_by_one 0 rest) (cached (handle env e warm)).
Proof.
  unfold arrivals. cbn [one_by_one observed app nth_error].
  rewrite (observed_one_by_one env rest _ [(e, warm)]). cbn [app].
  destruct warm; [| reflexivity].
  now destruct (warm_request env e) as [-> _].
Qed.

Lemma serve_cons (env : Env) (e : Endpoint) (rest : list Endpoint)
  (warm : bool) :
  serve env (e :: rest) warm =
  handle env e warm :: serve env rest (cached (handle env e warm)).
Proof. unfold serve. now rewrite arrivals_cons. Qed.

Lemma arrivals_warm (env : Env) (requests : list Endpoint) :
  arrivals env (one_by_one 0 requests) true =
  map (fun e => (e, true)) requests.
Proof.
  induction requests as [| e rest IH]; [reflexivity |].
  rewrite arrivals_cons. destruct (warm_request env e) as [-> _].
  cbn [map]. now rewrite IH.
Qed.

Lemma serve_warm (env : Env) (requests : list Endpoint) :
  ~ In Connect (events (serve env requests true)) /\
  Forall (fun r => cached r = true) (serve env requests true).
Proof.
  induction requests as [| e rest [IH1 IH2]]; [split; [easy | constructor] |].
  unfold events in *. rewrite serve_cons. cbn [map concat].
  destruct (warm_request env e) as [Hc Ht]. rewrite Hc. split.
  - rewrite in_app_iff. tauto.
  - constructor; assumption.
Qed.

Lemma connections_warm (env : Env) (requests : list Endpoint) :
  connections env (map (fun e => (e, true)) requests) = 0%nat.
Proof.
  unfold connections. induction requests as [| e rest IH]; [reflexivity |].
  cbn [map filter fst snd]. now rewrite warm_connects.
Qed.


(** X1. Requests that do not overlap share one connection: when the
    store can be reached, a process that starts cold and answers each
    request before the next arrives attempts a connection exactly once,
    as the first thing it does; every request but the first finds the
    cache set, and every request leaves it set. *)
Theorem one_connection_per_process (env : Env) (e : Endpoint)
  (rest : list Endpoint) :
  connect env = None ->
  arrivals env (one_by_one 0 (e :: rest)) false =
    (e, false) :: map (fun e' => (e', true)) rest /\
  connections env (arrivals env (one_by_one 0 (e :: rest)) false) = 1%nat /\
  Forall (fun r => cached r = true) (serve env (e :: rest) false) /\
  exists later,
    events (serve env (e :: rest) false) = Connect :: later /\
    ~ In Connect later.
Proof.
  intros Hc.
  destruct (cold_request env e Hc) as (Hw & first & Ht & Hn).
  assert (Ha : arrivals env (one_by_one 0 (e :: rest)) false =
               (e, false) :: map (fun e' => (e', true)) rest).
  { rewrite arrivals_cons, Hw. now rewrite arrivals_warm. }
  split; [exact Ha |]. split.
  - rewrite Ha. unfold connections. cbn [filter fst snd].
    rewrite cold_connects. cbn [length]. f_equal.
    apply connections_warm.
  - rewrite serve_cons, Hw. destruct (serve_warm env rest) as [H1 H2]. split.
    + constructor; assumption.
    + unfold events in *. cbn [map concat]. rewrite Ht.
      exists (first ++ concat (map trace (serve env rest true)))%list.
      split; [reflexivity |]. rewrite in_app_iff. tauto.
Qed.

Lemma one_connection_per_process_witness :
  connections Sample.up
    (arrivals Sample.up
       (one_by_one 0
          [ApiSearch (Sample.query (Some "p") None None);
           ApiMedicine "sku-17";
           ApiAlternatives Sample.idB (Sample.query None None None)])
       false) = 1%nat /\
  exists later,
    events
      (serve Sample.up
         [ApiSearch (Sample.query (Some "p") None None);
          ApiMedicine "sku-17";
          ApiAlternatives Sample.idB (Sample.query None None None)] false) =
      Connect :: later /\
    ~ In Connect later.
Proof.
  split.
  - exact (proj1 (proj2 (one_connection_per_process Sample.up
                    (ApiSearch (Sample.query (Some "p") None None))
                    [ApiMedicine "sku-17";
                     ApiAlternatives Sample.idB (Sample.query None None None)]
                    eq_refl))).
  - exact (proj2 (proj2 (proj2 (one_connection_per_process Sample.up
                    (ApiSearch (Sample.query (Some "p") None None))
                    [ApiMedicine "sku-17";
                     ApiAlternatives Sample.idB (Sample.query None None None)]
                    eq_refl)))).
Defined.


(** Two searches that arrive together connect twice; the same two, one
    after the other, connect once. *)
Example two_overlapping_searches :
  connections Sample.up
    (arrivals Sample.up
       [Arrival (ApiSearch (Sample.query (Some "p") None None));
        Arrival (ApiSearch (Sample.query (Some "c") None None));
        Resumption 0; Resumption 1] false) = 2%nat /\
  connections Sample.up
    (arrivals Sample.up
       (one_by_one 0
          [ApiSearch (Sample.query (Some "p") None None);
           ApiSearch (Sample.query (Some "c") None None)]) false) = 1%nat.
Proof. split; reflexivity. Qed.

(** X2. A failed connection attempt is not remembered: while the store
    cannot be reached, every request of a sequence attempts the
    connection anew, is answered 500 with the description of the error
    [connectToDb] throws, and leaves the cache unset. *)
Theorem connection_failure_not_cached (env : Env) (err : JS.error)
  (requests : list Endpoint) :
  connect env = Some err ->
  serve env requests false =
    map (fun _ =>
           {| completion :=
                JS.Normal
                  {| status := 500;
                     body := Failure "Error: Failed to connect to database" |};
              cached := false;
              trace := [Connect] |})
        requests.
Proof.
  intros Hc. induction requests as [| e rest IH]; [reflexivity |].
  rewrite serve_cons. cbn [map]. rewrite (connection_failure env e err Hc).
  cbn [cached]. now rewrite IH.
Qed.

Lemma connection_failure_not_cached_witness :
  events
    (serve Sample.down [ApiMedicine "sku-17"; ApiMedicine "sku-17"] false) =
    [Connect; Connect].
Proof.
  rewrite (connection_failure_not_cached Sample.down
             (JS.Error "MongoNetworkError" "connect ECONNREFUSED")
             [ApiMedicine "sku-17"; ApiMedicine "sku-17"] eq_refl).
  reflexivity.
Defined.

(* ===================================================================== *)
(** ** Shape of the responses *)
(* ===================================================================== *)

(** X3. The status codes of the endpoints: search and alternatives answer
    200 with [{ total, documents }] or 500 with [{ error }], never 404;
    get-by-id answers 200 with [{ document }], 404 with
    [{ error: "Not found" }] or 500 with [{ error }]. *)
Theorem response_shapes (env : Env) (e : Endpoint) (warm : bool) :
  exists resp,
    completion (handle env e warm) = JS.Normal resp /\
    match e with
    | ApiMedicine _ =>
        (status resp = 200 /\ exists d, body resp = Document d) \/
        (status resp = 404 /\ body resp = Failure "Not found") \/
        (status resp = 500 /\ exists msg, body resp = Failure msg)
    | _ =>
        (status resp = 200 /\ exists docs, body resp = Page (length docs) docs) \/
        (status resp = 500 /\ exists msg, body resp = Failure msg)
    end.
Proof.
  destruct e; run_proc; run_cases; eexists; (split; [reflexivity |]);
    cbn [status body];
    first
      [ left; split; [reflexivity | exists []; reflexivity]
      | left; split; [reflexivity | eexists; reflexivity]
      | right; left; split; reflexivity
      | right; split; [reflexivity | eexists; reflexivity]
      | right; right; split; [reflexivity | eexists; reflexivity] ].
Qed.

(** X4. Every document that search or alternatives returns is a record
    of the collection cut down to the projection: it keeps the record's
    [_id] and, of its fields, only [brand_name], [composition],
    [composition_key], [manufacturer], [dosage_form] and [price]. *)
Theorem listed_fields_only (env : Env) (e : Endpoint) (warm : bool)
  (resp : Response) (total : nat) (docs : list Store.Doc) (d : Store.Doc) :
  completion (handle env e warm) = JS.Normal resp ->
  body resp = Page total docs ->
  In d docs ->
  (exists c, In c (Store.records (collection env)) /\ d = listed c) /\
  forall k v, In (k, v) (Store.fields d) ->
    In k ["brand_name"; "composition"; "composition_key"; "manufacturer";
          "dosage_form"; "price"].
Proof.
  intros Hc Hb Hd.
  assert (Hsel : exists c, In c (Store.records (collection env)) /\ d = listed c).
  { revert Hc Hb Hd.
    destruct e; run_proc; run_cases; intros H; injection H as <-;
      cbn [body]; intros Hb; try discriminate Hb; injection Hb as _ <-;
      intros Hd; try contradiction;
      match goal with
      | E : Store.find_toArray _ _ _ _ _ = JS.Normal _ |- _ =>
          apply (Subseq_In _ _ d (find_toArray_Subseq _ _ _ _ _ _ E)) in Hd
      end;
      apply in_map_iff in Hd; destruct Hd as (c & <- & Hin); now exists c. }
  split; [exact Hsel |].
  destruct Hsel as (c & _ & ->). intros k v Hk.
  unfold listed, Store.project, listing_projection in Hk. cbn [Store.fields] in Hk.
  apply filter_In in Hk. destruct Hk as [_ Hk]. cbn [fst] in Hk.
  apply existsb_exists in Hk. destruct Hk as (x & Hx & E).
  apply String.eqb_eq in E. now subst x.
Qed.

Lemma listed_fields_only_witness :
  In "price"
    ["brand_name"; "composition"; "composition_key"; "manufacturer";
     "dosage_form"; "price"].
Proof.
  apply (proj2 (listed_fields_only Sample.up
                  (ApiSearch (Sample.query (Some "p") None (Some "1"))) true
                  {| status := 200; body := Page 1 [listed Sample.B] |}
                  1 [listed Sample.B] (listed Sample.B)
                  eq_refl eq_refl (or_introl eq_refl))
           "price" (JS.VNum (JS.Num 20))).
  vm_compute. tauto.
Defined.

(** X5. The paging of every query a handler issues is well formed or
    [NaN]: the projection is the listing projection, the limit is [NaN]
    or a number from 1 to the cap of the endpoint, and with such a limit
    the skip is [NaN], positive infinity, or the product of a page of at
    least 0 and the limit, rounded to a double; the rounded product is
    the product itself when that is below 2^53. No handler sends a
    negative skip or a limit below 1. *)
Theorem issued_paging (env : Env) (e : Endpoint) (warm : bool)
  (f : Store.Filter) (p : Store.Projection) (s n : JS.number) :
  In (Issued (Store.Find f p s n)) (trace (handle env e warm)) ->
  p = listing_projection /\
  ((n = JS.NaN /\ s = JS.NaN) \/
   exists sz, n = JS.Num sz /\ 1 <= sz <= size_cap e /\
     (s = JS.NaN \/ s = JS.Infinity false \/
      exists pg, 0 <= pg /\ s = JS.to_number (pg * sz) /\
                 (pg * sz < 2 ^ 53 -> s = JS.Num (pg * sz)))) /\
  s <> JS.Infinity true /\
  (forall z, s = JS.Num z -> 0 <= z).
Proof.
  assert (G : forall cap dflt query, 1 <= cap ->
            let s := JS.mul (page_of query) (size_of cap dflt query) in
            let n := size_of cap dflt query in
            ((n = JS.NaN /\ s = JS.NaN) \/
             exists sz, n = JS.Num sz /\ 1 <= sz <= cap /\
               (s = JS.NaN \/ s = JS.Infinity false \/
                exists pg, 0 <= pg /\ s = JS.to_number (pg * sz) /\
                           (pg * sz < 2 ^ 53 -> s = JS.Num (pg * sz)))) /\
            s <> JS.Infinity true /\
            (forall z, s = JS.Num z -> 0 <= z)).
  { intros cap dflt query Hcap s0 n0. subst s0 n0.
    destruct (size_of_cases cap dflt query Hcap) as [-> | (sz & -> & Hsz)].
    - assert (E : JS.mul (page_of query) JS.NaN = JS.NaN)
        by (now destruct (page_of query) as [| z | [|]]).
      rewrite E. split; [now left |]. split; [discriminate | discriminate].
    - destruct (page_of_cases query) as [-> | [(pg & -> & Hpg) | ->]];
        cbn [JS.mul].
      + split; [| split; discriminate].
        right. exists sz. split; [reflexivity |]. split; [exact Hsz |]. now left.
      + assert (Hprod : 0 <= pg * sz) by nia.
        split; [| split].
        * right. exists sz. split; [reflexivity |]. split; [exact Hsz |].
          right. right. exists pg. split; [exact Hpg |].
          split; [reflexivity |]. intros Hlt.
          apply to_number_small. rewrite Z.abs_eq; assumption.
        * destruct (to_number_nonneg _ Hprod) as [-> | (m & -> & _)];
            discriminate.
        * intros z Hz.
          destruct (to_number_nonneg _ Hprod) as [E | (m & E & Hm)];
            rewrite E in Hz; [discriminate |].
          injection Hz as <-. exact Hm.
      + assert (E : (sz =? 0) = false) by (apply Z.eqb_neq; lia).
        assert (E' : (sz <? 0) = false) by (apply Z.ltb_ge; lia).
        rewrite E, E'. cbn [xorb].
        split; [| split; discriminate].
        right. exists sz. split; [reflexivity |]. split; [exact Hsz |].
        right. now left. }
  destruct e as [query | id | id query]; run_proc; run_cases; cbn [In];
    intros Hin;
    repeat match type of Hin with _ \/ _ => destruct Hin as [Hin | Hin] end;
    try discriminate Hin; try contradiction;
    injection Hin as <- <- <- <-; (split; [reflexivity |]); cbn [size_cap];
    apply G; lia.
Qed.

Lemma issued_paging_witness :
  listing_projection = listing_projection /\
  ((JS.Num 3 = JS.NaN /\ JS.Num 27021597764222972 = JS.NaN) \/
   exists sz, JS.Num 3 = JS.Num sz /\ 1 <= sz <= 200 /\
     (JS.Num 27021597764222972 = JS.NaN \/
      JS.Num 27021597764222972 = JS.Infinity false \/
      exists pg, 0 <= pg /\
        JS.Num 27021597764222972 = JS.to_number (pg * sz) /\
        (pg * sz < 2 ^ 53 -> JS.Num 27021597764222972 = JS.Num (pg * sz)))) /\
  JS.Num 27021597764222972 <> JS.Infinity true /\
  (forall z, JS.Num 27021597764222972 = JS.Num z -> 0 <= z).
Proof.
  exact (issued_paging Sample.up
           (ApiSearch
              (Sample.query (Some "p") (Some "9007199254740991") (Some "3")))
           true
           (Store.BrandNameRegex
              (Regex.Pattern
                 [[Regex.TBegin; Regex.TAtom (Regex.AChar "p") Regex.QOne]]))
           listing_projection (JS.Num 27021597764222972) (JS.Num 3)
           (or_introl eq_refl)).
Defined.

Lemma apply_limit_length {A : Type} (n : Z) (l : list A) :
  1 <= n -> Z.of_nat (length (Store.apply_limit n l)) <= n.
Proof.
  intros Hn. unfold Store.apply_limit.
  destruct (n =? 0) eqn:E; [apply Z.eqb_eq in E; lia |].
  rewrite Zabs2Nat.abs_nat_nonneg by lia.
  pose proof (firstn_le_length (Z.to_nat n) l) as H. lia.
Qed.

(** X6. A page is never longer than the effective size: when search or
    alternatives answers 200 and the effective size is a number, [total]
    is at most that number, hence at most 200 (search) or 500
    (alternatives). *)
Theorem page_within_size (env : Env) (e : Endpoint) (warm : bool)
  (total : nat) (docs : list Store.Doc) (n : Z) :
  completion (handle env e warm) =
    JS.Normal {| status := 200; body := Page total docs |} ->
  size_for e = JS.Num n ->
  Z.of_nat total <= n <= size_cap e.
Proof.
  intros Hc Hn.
  assert (Hb : 1 <= n <= size_cap e).
  { destruct e as [query | id | id query]; cbn [size_for size_cap] in *.
    - apply (size_of_bounds 200 "20" query n); [lia | exact Hn].
    - discriminate Hn.
    - apply (size_of_bounds 500 "100" query n); [lia | exact Hn]. }
  split; [| lia]. revert Hc.
  destruct e as [query | id | id query]; cbn [size_for] in Hn;
    run_proc; run_cases; intros H; try discriminate H;
    injection H as <- <-; cbn [length]; try lia;
    match goal with
    | E : Store.find_toArray _ _ _ _ _ = JS.Normal _ |- _ =>
        rewrite Hn in E; unfold Store.find_toArray in E;
        destruct (Store.fault _ _); [discriminate |];
        destruct (JS.mul _ _) as [| s | [|]]; try discriminate E;
        [ match type of E with
          | (if ?b then _ else _) = _ => destruct b; [discriminate |]
          end;
          injection E as <-; apply apply_limit_length; lia
        | injection E as <-; cbn [length]; lia ]
    end.
Qed.

Lemma page_within_size_witness : Z.of_nat 1 <= 1 <= 200.
Proof.
  exact (page_within_size Sample.up
           (ApiSearch (Sample.query (Some "p") None (Some "1"))) true
           1 [listed Sample.B] 1 eq_refl eq_refl).
Defined.

(* ===================================================================== *)
(** ** Get-by-id: what a 200 carries *)
(* ===================================================================== *)

Lemma id_eqb_eq (a b : Store.IdValue) :
  Store.id_eqb a b = true ->
  match a, b with
  | Store.NativeId x, Store.NativeId y => Store.toHexString x = Store.toHexString y
  | Store.RawId x, Store.RawId y => x = y
  | _, _ => False
  end.
Proof.
  destruct a, b; cbn; intros H; try discriminate H; now apply String.eqb_eq.
Qed.

(** X7. A document returned by get-by-id is a record of the collection
    whose [_id] is the key built from the path parameter: a native [_id]
    is returned only for an [id] that [ObjectId.isValid] accepts, and a
    string [_id] only for an [id] it rejects, and then the [_id] is [id]
    itself. So a record whose string [_id] passes [ObjectId.isValid] is
    never returned. *)
Theorem returned_document_has_key (env : Env) (id : string) (warm : bool)
  (d : Store.Doc) :
  completion (get_api_medicines_id env id warm) =
    JS.Normal {| status := 200; body := Document d |} ->
  In d (Store.records (collection env)) /\
  match Store._id d with
  | Store.NativeId o =>
      ObjectId_isValid env id = true /\
      Store.toHexString o = Store.toHexString (new_ObjectId env id)
  | Store.RawId s => ObjectId_isValid env id = false /\ s = id
  end.
Proof.
  intros H.
  assert (F : base_of env id = Some d).
  { revert H. run_proc; run_cases; intros H; try discriminate H;
      injection H as <-;
      match goal with
      | E : Store.findOne _ _ _ = JS.Normal (Some _) |- _ =>
          unfold Store.findOne in E; destruct (Store.fault _ _); [discriminate |];
          injection E as E; fold (base_of env id) in E;
          destruct (base_of env id); [exact E | discriminate E]
      end. }
  apply find_some in F. destruct F as [Hin Hk]. split; [exact Hin |].
  cbn [Store.satisfies] in Hk. apply id_eqb_eq in Hk. unfold id_key in Hk.
  destruct (ObjectId_isValid env id), (Store._id d);
    try contradiction; now split.
Qed.

Lemma returned_document_has_key_witness :
  In Sample.E (Store.records (collection Sample.up)) /\
  match Store._id Sample.E with
  | Store.NativeId o =>
      ObjectId_isValid Sample.up "sku-17" = true /\
      Store.toHexString o = Store.toHexString (new_ObjectId Sample.up "sku-17")
  | Store.RawId s => ObjectId_isValid Sample.up "sku-17" = false /\ s = "sku-17"
  end.
Proof.
  exact (returned_document_has_key Sample.up "sku-17" true Sample.E eq_refl).
Defined.

(** A get-by-id the store answers. *)
Lemma by_id_response (env : Env) (id : string) (warm : bool) :
  reachable env warm ->
  Store.fault (collection env)
    (Store.FindOne (Store.ById (id_key env id)) None) = None ->
  completion (get_api_medicines_id env id warm) =
    JS.Normal
      match base_of env id with
      | Some d => {| status := 200; body := Document d |}
      | None => {| status := 404; body := Failure "Not found" |}
      end.
Proof.
  intros Hr Hf.
  unfold get_api_medicines_id, try_catch, bind.
  rewrite (connectToDb_reachable env warm Hr).
  cbn [completion cached trace collection_findOne issue].
  unfold Store.findOne. rewrite Hf. fold (base_of env id).
  destruct (base_of env id) as [d |]; reflexivity.
Qed.

(** X8. The two endpoints on an identifier agree: when the store answers
    and get-by-id says 404 for [id], alternatives for the same [id] is
    the empty page, 200 and not 404, after the base lookup alone. *)
Theorem not_found_has_no_alternatives (env : Env) (id : string)
  (query : Query) (warm warm' : bool) :
  reachable env warm ->
  reachable env warm' ->
  (forall cmd, Store.fault (collection env) cmd = None) ->
  completion (get_api_medicines_id env id warm) =
    JS.Normal {| status := 404; body := Failure "Not found" |} ->
  get_api_medicines_id_alternatives env id query warm' =
    {| completion := JS.Normal {| status := 200; body := Page 0 [] |};
       cached := true;
       trace := (connecting warm' ++ [Issued (base_lookup env id)])%list |}.
Proof.
  intros Hr Hr' Hf H404.
  rewrite (by_id_response env id warm Hr (Hf _)) in H404.
  apply alternatives_base; [exact Hr' | apply Hf |].
  destruct (base_of env id); [discriminate H404 | exact I].
Qed.

Lemma not_found_has_no_alternatives_witness :
  completion
    (get_api_medicines_id_alternatives Sample.up "no such id"
       (Sample.query None None None) true) =
    JS.Normal {| status := 200; body := Page 0 [] |}.
Proof.
  exact (f_equal completion
           (not_found_has_no_alternatives Sample.up "no such id"
              (Sample.query None None None) true true
              (or_introl eq_refl) (or_introl eq_refl) (fun _ => eq_refl)
              eq_refl)).
Defined.

(* ===================================================================== *)
(** ** Search: pages, and the text as typed *)
(* ===================================================================== *)

Lemma firstn_add_split {A : Type} (a b : nat) (l : list A) :
  firstn (a + b) l = (firstn a l ++ firstn b (skipn a l))%list.
Proof.
  revert l. induction a as [| a IH]; intros l; [reflexivity |].
  destruct l as [| x l]; cbn [Nat.add firstn skipn app].
  - now rewrite firstn_nil.
  - now rewrite IH.
Qed.

Lemma skipn_add {A : Type} (a b : nat) (l : list A) :
  skipn a (skipn b l) = skipn (b + a) l.
Proof.
  revert l. induction b as [| b IH]; intros l; [reflexivity |].
  destruct l as [| x l]; cbn [Nat.add skipn]; [now rewrite skipn_nil | apply IH].
Qed.

(** X9. A page past the end is an empty page, not an error: when the
    store answers and the skip [page * size] reaches the number of
    matches, search answers 200 with [{total: 0, documents: []}]. *)
Theorem page_past_the_end (env : Env) (query : Query) (warm : bool)
  (text : string) (re : Regex.RegExp) (p n : Z) :
  reachable env warm ->
  (forall cmd, Store.fault (collection env) cmd = None) ->
  q query = Some text ->
  JS.is_empty (JS.trim text) = false ->
  RegExp_constructor env ("^" ++ JS.trim text) = JS.Normal re ->
  page_of query = JS.Num p ->
  size_of 200 "20" query = JS.Num n ->
  (length (filter (Store.satisfies (Store.BrandNameRegex re))
             (Store.records (collection env))) <= Z.to_nat (p * n))%nat ->
  completion (get_api_search env query warm) =
    JS.Normal {| status := 200; body := Page 0 [] |}.
Proof.
  intros Hr Hf Hq Hne Hre Hp Hn Hlen.
  destruct (search_page env query warm text re p n Hr Hf Hq Hne Hre Hp Hn)
    as [Hc _].
  rewrite Hc. rewrite skipn_all2 by (now rewrite length_map).
  now rewrite firstn_nil.
Qed.

Lemma page_past_the_end_witness :
  completion
    (get_api_search Sample.up (Sample.query (Some "p") (Some "7") None) true) =
    JS.Normal {| status := 200; body := Page 0 [] |}.
Proof.
  exact (page_past_the_end Sample.up
           (Sample.query (Some "p") (Some "7") None) true "p"
           (Regex.Pattern
              [[Regex.TBegin; Regex.TAtom (Regex.AChar "p") Regex.QOne]])
           7 20 (or_introl eq_refl) (fun _ => eq_refl) eq_refl eq_refl eq_refl
           eq_refl eq_refl ltac:(vm_compute; lia)).
Defined.

(** X10. Consecutive pages join up: with the store answering and the
    same text and size [n], the documents of page [p] followed by those
    of page [p + 1] are the [2 n] matches from position [p * n] on, in
    native order; nothing is repeated and nothing skipped between
    pages. *)
Theorem consecutive_pages (env : Env) (query query' : Query) (warm warm' : bool)
  (text : string) (re : Regex.RegExp) (p n : Z) :
  reachable env warm ->
  reachable env warm' ->
  (forall cmd, Store.fault (collection env) cmd = None) ->
  q query = Some text ->
  q query' = Some text ->
  JS.is_empty (JS.trim text) = false ->
  RegExp_constructor env ("^" ++ JS.trim text) = JS.Normal re ->
  page_of query = JS.Num p ->
  page_of query' = JS.Num (p + 1) ->
  size_of 200 "20" query = JS.Num n ->
  size_of 200 "20" query' = JS.Num n ->
  (documents_of (get_api_search env query warm) ++
   documents_of (get_api_search env query' warm'))%list =
  firstn (Z.to_nat (2 * n))
    (skipn (Z.to_nat (p * n))
       (map listed
          (filter (Store.satisfies (Store.BrandNameRegex re))
             (Store.records (collection env))))).
Proof.
  intros Hr Hr' Hf Hq Hq' Hne Hre Hp Hp' Hn Hn'.
  pose proof (page_of_nonneg query p Hp) as Hp0.
  pose proof (size_of_bounds 200 "20" query n ltac:(lia) Hn) as Hn1.
  destruct (search_page env query warm text re p n Hr Hf Hq Hne Hre Hp Hn)
    as [Hc _].
  destruct (search_page env query' warm' text re (p + 1) n Hr' Hf Hq' Hne Hre Hp' Hn')
    as [Hc' _].
  unfold documents_of. rewrite Hc, Hc'.
  replace (Z.to_nat (2 * n)) with (Z.to_nat n + Z.to_nat n)%nat by lia.
  replace (Z.to_nat ((p + 1) * n)) with (Z.to_nat (p * n) + Z.to_nat n)%nat by nia.
  now rewrite firstn_add_split, skipn_add.
Qed.

Lemma consecutive_pages_witness :
  (documents_of
     (get_api_search Sample.up (Sample.query (Some "p") (Some "0") (Some "1")) true) ++
   documents_of
     (get_api_search Sample.up (Sample.query (Some "p") (Some "1") (Some "1")) true))%list =
  [listed Sample.B; listed Sample.C2].
Proof.
  exact (consecutive_pages Sample.up
           (Sample.query (Some "p") (Some "0") (Some "1"))
           (Sample.query (Some "p") (Some "1") (Some "1")) true true "p"
           (Regex.Pattern
              [[Regex.TBegin; Regex.TAtom (Regex.AChar "p") Regex.QOne]])
           0 1 (or_introl eq_refl) (or_introl eq_refl) (fun _ => eq_refl)
           eq_refl eq_refl eq_refl eq_refl eq_refl eq_refl eq_refl eq_refl).
Defined.

(** X11. A page number that is zero or negative is served as page 0: the
    handlers behave on it exactly as on a request with no [page]. *)
Theorem negative_page_is_first (env : Env) (id : string) (query : Query)
  (warm : bool) (z : Z) :
  JS.parseInt (JS.or_default (page query) "0") = JS.Num z ->
  z <= 0 ->
  get_api_search env query warm = get_api_search env (first_page query) warm /\
  get_api_medicines_id_alternatives env id query warm =
    get_api_medicines_id_alternatives env id (first_page query) warm.
Proof.
  intros Hz Hle.
  assert (Hp : page_of query = page_of (first_page query)).
  { change (page_of (first_page query)) with (JS.Num 0).
    unfold page_of. rewrite Hz. cbn [JS.Math_max]. f_equal. lia. }
  unfold get_api_search, get_api_medicines_id_alternatives.
  rewrite Hp. split; reflexivity.
Qed.

Lemma negative_page_is_first_witness :
  get_api_search Sample.up (Sample.query (Some "p") (Some "-3") None) true =
  get_api_search Sample.up
    (first_page (Sample.query (Some "p") (Some "-3") None)) true.
Proof.
  exact (proj1 (negative_page_is_first Sample.up Sample.idB
                  (Sample.query (Some "p") (Some "-3") None) true (-3)
                  eq_refl ltac:(lia))).
Defined.

(** *** White space around the text *)

(** The first character of a byte sequence: a lone byte, or a
    well-formed sequence of two, three or four bytes. *)
Lemma characters_two (a b : ascii) (p : Z) (m : list ascii) :
  (JS.code a <? 128) = false -> JS.point2 a b = Some p ->
  JS.characters (a :: b :: m) = (p, [a; b]) :: JS.characters m.
Proof. intros E P. cbn [JS.characters]. now rewrite E, P. Qed.

Lemma characters_three (a b c : ascii) (p : Z) (m : list ascii) :
  (JS.code a <? 128) = false -> JS.point2 a b = None ->
  JS.point3 a b c = Some p ->
  JS.characters (a :: b :: c :: m) = (p, [a; b; c]) :: JS.characters m.
Proof. intros E P2 P3. cbn [JS.characters]. now rewrite E, P2, P3. Qed.

Lemma characters_four (a b c d : ascii) (p : Z) (m : list ascii) :
  (JS.code a <? 128) = false -> JS.point2 a b = None ->
  JS.point3 a b c = None -> JS.point4 a b c d = Some p ->
  JS.characters (a :: b :: c :: d :: m) = (p, [a; b; c; d]) :: JS.characters m.
Proof. intros E P2 P3 P4. cbn [JS.characters]. now rewrite E, P2, P3, P4. Qed.

Lemma characters_cases (a : ascii) (r : list ascii) :
  JS.characters (a :: r) = (JS.code a, [a]) :: JS.characters r \/
  (exists p b r1, r = b :: r1 /\ (JS.code a <? 128) = false /\
     JS.point2 a b = Some p) \/
  (exists p b c r2, r = b :: c :: r2 /\ (JS.code a <? 128) = false /\
     JS.point2 a b = None /\ JS.point3 a b c = Some p) \/
  (exists p b c d r3, r = b :: c :: d :: r3 /\ (JS.code a <? 128) = false /\
     JS.point2 a b = None /\ JS.point3 a b c = None /\
     JS.point4 a b c d = Some p).
Proof.
  cbn [JS.characters]. destruct (JS.code a <? 128) eqn:E; [now left |].
  destruct r as [| b r1]; [now left |].
  destruct (JS.point2 a b) as [p |] eqn:P2; [right; left; eauto 10 |].
  destruct r1 as [| c r2]; [now left |].
  destruct (JS.point3 a b c) as [p |] eqn:P3; [right; right; left; eauto 10 |].
  destruct r2 as [| d r3]; [now left |].
  destruct (JS.point4 a b c d) as [p |] eqn:P4; [| now left].
  right; right; right. eauto 12.
Qed.

(** The characters of a byte sequence hold its bytes, in order. *)
Lemma characters_bytes (l : list ascii) :
  concat (map snd (JS.characters l)) = l.
Proof.
  assert (G : forall n l, (length l <= n)%nat ->
                          concat (map snd (JS.characters l)) = l).
  { clear l. induction n as [| n IH]; intros l Hl.
    - destruct l; [reflexivity | cbn in Hl; lia].
    - destruct l as [| a r]; [reflexivity |]. cbn [length] in Hl.
      destruct (characters_cases a r)
        as [H | [(p & b & r1 & -> & E & P2)
               | [(p & b & c & r2 & -> & E & P2 & P3)
                 | (p & b & c & d & r3 & -> & E & P2 & P3 & P4)]]].
      + rewrite H. cbn [map concat snd app]. now rewrite IH by lia.
      + rewrite (characters_two a b p r1 E P2). cbn [map concat snd app].
        cbn [length] in Hl. now rewrite IH by lia.
      + rewrite (characters_three a b c p r2 E P2 P3). cbn [map concat snd app].
        cbn [length] in Hl. now rewrite IH by lia.
      + rewrite (characters_four a b c d p r3 E P2 P3 P4).
        cbn [map concat snd app]. cbn [length] in Hl. now rewrite IH by lia. }
  apply (G (length l)). lia.
Qed.

(** A byte that stands alone before [m ++ t] stands alone before [m]:
    cutting bytes off the end completes no sequence. *)
Lemma lone_stable (a : ascii) (m t : list ascii) :
  JS.characters (a :: m ++ t) = (JS.code a, [a]) :: JS.characters (m ++ t) ->
  JS.characters (a :: m) = (JS.code a, [a]) :: JS.characters m.
Proof.
  intros H.
  destruct (characters_cases a m)
    as [G | [(p & b & r1 & -> & E & P2)
           | [(p & b & c & r2 & -> & E & P2 & P3)
             | (p & b & c & d & r3 & -> & E & P2 & P3 & P4)]]];
    [exact G | exfalso ..]; cbn [app] in H.
  - rewrite (characters_two a b p _ E P2) in H. discriminate H.
  - rewrite (characters_three a b c p _ E P2 P3) in H. discriminate H.
  - rewrite (characters_four a b c d p _ E P2 P3 P4) in H. discriminate H.
Qed.

(** The first [k] characters of a byte sequence are the reading of
    their own bytes. *)
Lemma characters_firstn (l : list ascii) (k : nat) :
  JS.characters (concat (map snd (firstn k (JS.characters l)))) =
  firstn k (JS.characters l).
Proof.
  assert (G : forall n l, (length l <= n)%nat -> forall k,
            JS.characters (concat (map snd (firstn k (JS.characters l)))) =
            firstn k (JS.characters l)).
  { clear l k. induction n as [| n IH]; intros l Hl k.
    - destruct l; [now rewrite firstn_nil | cbn in Hl; lia].
    - destruct l as [| a r]; [now rewrite firstn_nil |].
      destruct k as [| k]; [reflexivity |]. cbn [length] in Hl.
      destruct (characters_cases a r)
        as [H | [(p & b & r1 & -> & E & P2)
               | [(p & b & c & r2 & -> & E & P2 & P3)
                 | (p & b & c & d & r3 & -> & E & P2 & P3 & P4)]]].
      + rewrite H. cbn [firstn map concat snd app].
        rewrite (lone_stable a _
                   (concat (map snd (skipn k (JS.characters r))))).
        * now rewrite IH by lia.
        * rewrite <- concat_app, <- map_app, firstn_skipn, characters_bytes.
          exact H.
      + rewrite (characters_two a b p r1 E P2).
        cbn [firstn map concat snd app].
        rewrite (characters_two a b p _ E P2).
        cbn [length] in Hl. now rewrite IH by lia.
      + rewrite (characters_three a b c p r2 E P2 P3).
        cbn [firstn map concat snd app].
        rewrite (characters_three a b c p _ E P2 P3).
        cbn [length] in Hl. now rewrite IH by lia.
      + rewrite (characters_four a b c d p r3 E P2 P3 P4).
        cbn [firstn map concat snd app].
        rewrite (characters_four a b c d p _ E P2 P3 P4).
        cbn [length] in Hl. now rewrite IH by lia. }
  apply (G (length l)). lia.
Qed.

Lemma characters_skipn (l : list ascii) (k : nat) :
  JS.characters (concat (map snd (skipn k (JS.characters l)))) =
  skipn k (JS.characters l).
Proof.
  revert l. induction k as [| k IH]; intros l.
  - cbn [skipn]. now rewrite characters_bytes.
  - destruct l as [| a r]; [reflexivity |].
    destruct (characters_cases a r)
      as [H | [(p & b & r1 & -> & E & P2)
             | [(p & b & c & r2 & -> & E & P2 & P3)
               | (p & b & c & d & r3 & -> & E & P2 & P3 & P4)]]].
    + rewrite H. cbn [skipn]. apply IH.
    + rewrite (characters_two a b p r1 E P2). cbn [skipn]. apply IH.
    + rewrite (characters_three a b c p r2 E P2 P3). cbn [skipn]. apply IH.
    + rewrite (characters_four a b c d p r3 E P2 P3 P4). cbn [skipn]. apply IH.
Qed.

Lemma trimStart_skipn (l : list (Z * list ascii)) :
  exists k, JS.trimStart l = skipn k l.
Proof.
  induction l as [| ch r [k IH]]; [now exists 0%nat |].
  cbn [JS.trimStart]. destruct (JS.is_space (fst ch)).
  - exists (S k). exact IH.
  - now exists 0%nat.
Qed.

Lemma trimEnd_firstn (l : list (Z * list ascii)) :
  exists k, JS.trimEnd l = firstn k l.
Proof.
  unfold JS.trimEnd. destruct (trimStart_skipn (rev l)) as [k ->].
  exists (length l - k)%nat. now rewrite skipn_rev, rev_involutive.
Qed.

Lemma trimStart_idempotent (l : list (Z * list ascii)) :
  JS.trimStart (JS.trimStart l) = JS.trimStart l.
Proof.
  induction l as [| c r IH]; [reflexivity |].
  cbn [JS.trimStart]. destruct (JS.is_space (fst c)) eqn:E; [exact IH |].
  cbn [JS.trimStart]. now rewrite E.
Qed.

Lemma trimStart_head (l : list (Z * list ascii)) (c : Z * list ascii)
  (r : list (Z * list ascii)) :
  JS.trimStart l = c :: r -> JS.is_space (fst c) = false.
Proof.
  induction l as [| x l IH]; cbn [JS.trimStart]; [discriminate |].
  destruct (JS.is_space (fst x)) eqn:E; [exact IH |].
  intros H. injection H as <- _. exact E.
Qed.

Lemma trimStart_snoc (m : list (Z * list ascii)) (c : Z * list ascii) :
  JS.is_space (fst c) = false ->
  JS.trimStart (m ++ [c]) = (JS.trimStart m ++ [c])%list.
Proof.
  intros Hc. induction m as [| x m IH]; cbn [app JS.trimStart].
  - now rewrite Hc.
  - destruct (JS.is_space (fst x)); [exact IH | reflexivity].
Qed.

Lemma trimEnd_cons (c : Z * list ascii) (r : list (Z * list ascii)) :
  JS.is_space (fst c) = false -> JS.trimEnd (c :: r) = c :: JS.trimEnd r.
Proof.
  intros Hc. unfold JS.trimEnd. cbn [rev].
  rewrite (trimStart_snoc _ c Hc), rev_app_distr. reflexivity.
Qed.

Lemma trimEnd_idempotent (l : list (Z * list ascii)) :
  JS.trimEnd (JS.trimEnd l) = JS.trimEnd l.
Proof.
  unfold JS.trimEnd. now rewrite rev_involutive, trimStart_idempotent.
Qed.

(** Trimmed characters stay trimmed. *)
Lemma trim_characters_idempotent (l : list (Z * list ascii)) :
  JS.trimEnd (JS.trimStart (JS.trimEnd (JS.trimStart l))) =
  JS.trimEnd (JS.trimStart l).
Proof.
  destruct (JS.trimStart l) as [| c r] eqn:E; [reflexivity |].
  pose proof (trimStart_head _ c r E) as Hc.
  rewrite (trimEnd_cons c r Hc). cbn [JS.trimStart]. rewrite Hc.
  now rewrite (trimEnd_cons c _ Hc), trimEnd_idempotent.
Qed.

(** The bytes of a trimmed string are read as the characters that were
    kept. *)
Lemma characters_trim (l : list ascii) :
  JS.characters
    (concat (map snd (JS.trimEnd (JS.trimStart (JS.characters l))))) =
  JS.trimEnd (JS.trimStart (JS.characters l)).
Proof.
  destruct (trimStart_skipn (JS.characters l)) as [i Hi]. rewrite Hi.
  rewrite <- (characters_skipn l i).
  destruct (trimEnd_firstn
              (JS.characters
                 (concat (map snd (skipn i (JS.characters l)))))) as [j ->].
  apply characters_firstn.
Qed.

(** Trimming a trimmed string changes nothing. *)
Lemma trim_idempotent (s : string) : JS.trim (JS.trim s) = JS.trim s.
Proof.
  unfold JS.trim, JS.bytes, JS.str.
  rewrite list_ascii_of_string_of_list_ascii. f_equal.
  now rewrite characters_trim, trim_characters_idempotent.
Qed.

(** X12. White space around the query text does not count, whichever
    white space of the language it is (U+00A0 and U+FEFF included): a
    search behaves on [q] exactly as on [q] trimmed (same response, same
    command to the store). *)
Theorem search_ignores_outer_space (env : Env) (query : Query) (warm : bool) :
  get_api_search env query warm = get_api_search env (trimmed query) warm.
Proof.
  assert (Hq : JS.trim (JS.or_default (q (trimmed query)) "") =
               JS.trim (JS.or_default (q query) "")).
  { unfold trimmed. cbn [q]. destruct (q query) as [text |]; [| reflexivity].
    cbn [option_map]. now rewrite !or_default_empty, trim_idempotent. }
  unfold get_api_search. rewrite Hq. reflexivity.
Qed.

(** [para] between U+00A0 and U+FEFF is searched as [para]. *)
Example search_padded :
  JS.trim Sample.padded = "para" /\
  get_api_search Sample.up (Sample.query (Some Sample.padded) None None) true =
  get_api_search Sample.up (Sample.query (Some "para") None None) true.
Proof. split; reflexivity. Qed.

(* ===================================================================== *)
(** ** Alternatives: both ways *)
(* ===================================================================== *)

(** An alternatives request the store answers, for a base record with a
    truthy key and numeric [page] and [size]. *)
Lemma alternatives_page (env : Env) (id : string) (query : Query) (warm : bool)
  (b : Store.Doc) (key : JS.value) (p n : Z) :
  reachable env warm ->
  (forall cmd, Store.fault (collection env) cmd = None) ->
  base_of env id = Some b ->
  Store.get b "composition_key" = Some key ->
  JS.truthy key = true ->
  page_of query = JS.Num p ->
  size_of 500 "100" query = JS.Num n ->
  documents_of (get_api_medicines_id_alternatives env id query warm) =
    firstn (Z.to_nat n)
      (skipn (Z.to_nat (p * n))
         (map listed
            (filter (Store.satisfies (Store.SameKeyExcept key (Store._id b)))
               (Store.records (collection env))))).
Proof.
  intros Hr Hf Hb Hk Ht Hp Hn.
  pose proof (page_of_nonneg query p Hp) as Hp0.
  pose proof (size_of_bounds 500 "100" query n ltac:(lia) Hn) as Hn1.
  unfold documents_of, get_api_medicines_id_alternatives, try_catch, bind.
  rewrite (connectToDb_reachable env warm Hr).
  cbn [completion cached trace collection_findOne issue].
  unfold Store.findOne. rewrite Hf. fold (base_of env id). rewrite Hb.
  cbn [option_map].
  destruct (base_projection b) as [-> ->]. rewrite Hk, Ht, Hp, Hn.
  cbn [negb collection_find issue completion cached trace].
  rewrite find_toArray_product by (auto; lia).
  reflexivity.
Qed.

Lemma id_eqb_sym (a b : Store.IdValue) : Store.id_eqb a b = Store.id_eqb b a.
Proof. destruct a, b; cbn; try reflexivity; apply String.eqb_sym. Qed.

Lemma value_eqb_refl (v : JS.value) : JS.value_eqb v v = true.
Proof.
  destruct v as [| b | [| z | i] | s]; cbn; try reflexivity.
  - now destruct b.
  - apply Z.eqb_refl.
  - now destruct i.
  - apply String.eqb_refl.
Qed.

(** X13. Being an alternative goes both ways: when two records [B] and
    [C] of different [_id] carry the same truthy [composition_key], each
    is found by its identifier, and the page is the first and covers the
    matches, then [C] is among the alternatives of [B] and [B] is among
    the alternatives of [C]. *)
Theorem alternatives_symmetric (env : Env) (idB idC : string) (query : Query)
  (warm warm' : bool) (B C : Store.Doc) (key : JS.value) (n : Z) :
  reachable env warm ->
  reachable env warm' ->
  (forall cmd, Store.fault (collection env) cmd = None) ->
  base_of env idB = Some B ->
  base_of env idC = Some C ->
  Store.get B "composition_key" = Some key ->
  Store.get C "composition_key" = Some key ->
  JS.truthy key = true ->
  Store.id_eqb (Store._id C) (Store._id B) = false ->
  page_of query = JS.Num 0 ->
  size_of 500 "100" query = JS.Num n ->
  (length (filter (Store.satisfies (Store.SameKeyExcept key (Store._id B)))
             (Store.records (collection env))) <= Z.to_nat n)%nat ->
  (length (filter (Store.satisfies (Store.SameKeyExcept key (Store._id C)))
             (Store.records (collection env))) <= Z.to_nat n)%nat ->
  In (listed C)
    (documents_of (get_api_medicines_id_alternatives env idB query warm)) /\
  In (listed B)
    (documents_of (get_api_medicines_id_alternatives env idC query warm')).
Proof.
  intros Hr Hr' Hf HB HC HkB HkC Ht Hne Hp Hn HlB HlC.
  rewrite (alternatives_page env idB query warm B key 0 n Hr Hf HB HkB Ht Hp Hn).
  rewrite (alternatives_page env idC query warm' C key 0 n Hr' Hf HC HkC Ht Hp Hn).
  rewrite Z.mul_0_l. cbn [Z.to_nat skipn].
  rewrite !firstn_all2 by (now rewrite length_map).
  apply find_some in HB. apply find_some in HC.
  split; apply in_map, filter_In; (split; [tauto |]);
    apply satisfies_same_key; exists key;
    (split; [assumption | split; [apply value_eqb_refl |]]).
  - exact Hne.
  - now rewrite id_eqb_sym.
Qed.

Lemma alternatives_symmetric_witness :
  In (listed Sample.C1)
    (documents_of
       (get_api_medicines_id_alternatives Sample.up Sample.idB
          (Sample.query None None None) true)) /\
  In (listed Sample.B)
    (documents_of
       (get_api_medicines_id_alternatives Sample.up Sample.idC1
          (Sample.query None None None) true)).
Proof.
  exact (alternatives_symmetric Sample.up Sample.idB Sample.idC1
           (Sample.query None None None) true true Sample.B Sample.C1
           (JS.VStr "paracetamol-500") 100
           (or_introl eq_refl) (or_introl eq_refl) (fun _ => eq_refl)
           eq_refl eq_refl eq_refl eq_refl eq_refl eq_refl eq_refl eq_refl
           ltac:(vm_compute; lia) ltac:(vm_compute; lia)).
Defined.

(* ===================================================================== *)
(** ** Start of the process *)
(* ===================================================================== *)

Lemma or_default_not_empty (a : option string) (d : string) :
  d <> "" -> JS.or_default a d <> "".
Proof.
  intros Hd. destruct a as [[| c s] |]; cbn; [exact Hd | discriminate | exact Hd].
Qed.

(** X14. The process exits, with code 1, exactly when [MONGODB_URI] is
    unset or empty. Otherwise it starts with that URI, and the database
    and collection names are never empty: a [DB_NAME] or [COLLECTION]
    that is unset or empty gives "meddb" or "medicines". *)
Theorem startup_settings (env : ProcessEnv) :
  (forall code, startup env = Exit code ->
     code = 1 /\ (env "MONGODB_URI" = None \/ env "MONGODB_URI" = Some "")) /\
  (env "MONGODB_URI" = None \/ env "MONGODB_URI" = Some "" ->
     startup env = Exit 1) /\
  (forall s, startup env = Ready s ->
     (exists uri, env "MONGODB_URI" = Some uri /\ uri <> "" /\
                  MONGODB_URI s = Some uri) /\
     DB_NAME s <> "" /\ COLLECTION s <> "" /\
     (unset (env "DB_NAME") = true -> DB_NAME s = "meddb") /\
     (unset (env "COLLECTION") = true -> COLLECTION s = "medicines")).
Proof.
  unfold startup, unset.
  split; [| split].
  - intros code. destruct (env "MONGODB_URI") as [[| c u] |]; cbn;
      intros H; try discriminate H; injection H as <-; auto.
  - intros [-> | ->]; reflexivity.
  - intros s. destruct (env "MONGODB_URI") as [[| c u] |]; cbn;
      intros H; try discriminate H; injection H as <-; cbn.
    split; [exists (String c u); repeat split; discriminate |].
    split; [apply or_default_not_empty; discriminate |].
    split; [apply or_default_not_empty; discriminate |].
    split.
    + destruct (env "DB_NAME") as [[| x y] |]; cbn; intros E;
        try reflexivity; discriminate E.
    + destruct (env "COLLECTION") as [[| x y] |]; cbn; intros E;
        try reflexivity; discriminate E.
Qed.

Lemma startup_settings_witness :
  startup sample_process_env =
    Ready {| MONGODB_URI := Some "mongodb://localhost:27017";
             DB_NAME := "meddb"; COLLECTION := "medicines" |} /\
  DB_NAME
    {| MONGODB_URI := Some "mongodb://localhost:27017";
       DB_NAME := "meddb"; COLLECTION := "medicines" |} <> "".
Proof.
  split; [reflexivity |].
  exact (proj1 (proj2 (proj2 (proj2 (startup_settings sample_process_env))
                         {| MONGODB_URI := Some "mongodb://localhost:27017";
                            DB_NAME := "meddb"; COLLECTION := "medicines" |}
                         eq_refl))).
Defined.

(* ===================================================================== *)
(** ** Search: texts without syntax characters *)
(* ===================================================================== *)






